(** * Live transcription page: column store, fan-out and capture lifecycle

    A shallow embedding of [src/pages/LiveTranscriptionPage.js] (with
    [mapLangForServer] from [utils/languageUtils.js]): the values the page
    receives as parsed JSON, the column list held in React state and the
    updaters applied to it, the WebSocket message handler with its
    translation fan-out, the audio block handler, and the start/stop
    lifecycle of a capture. *)

From Stdlib Require Import List String Ascii Bool Arith NArith ZArith Lia.
From Stdlib Require Import DecimalString DecimalN DecimalPos.
From Stdlib.Strings Require Import Byte.
From Equations Require Import Equations.
Import ListNotations.

Local Open Scope string_scope.
Local Open Scope list_scope.
Local Open Scope nat_scope.

Set Implicit Arguments.
Set Warnings "-register-all,-abstract-large-number".

(* ================================================================== *)
(** ** JavaScript values, as far as the page looks at them *)
(* ================================================================== *)

Module Js.

(** What [JSON.parse] and [r.json()] can deliver, plus [undefined] (the
    value of an absent property).  A number is only ever tested for being
    zero and stored, so an integer stands for it. *)
Inductive val : Type :=
| Undefined
| Null
| Bool (b : bool)
| Num (z : Z)
| Str (s : string)
| Arr (xs : list val)
| Obj (fields : list (string * val)).

(** [!!v] *)
Definition truthy (v : val) : bool :=
  match v with
  | Undefined | Null => false
  | Bool b => b
  | Num z => negb (Z.eqb z 0)
  | Str s => negb (String.eqb s "")
  | Arr _ | Obj _ => true
  end.

(** [typeof v === "object"]: true of [null], arrays and objects. *)
Definition typeof_object (v : val) : bool :=
  match v with
  | Null | Arr _ | Obj _ => true
  | _ => false
  end.

(** Own property of a parsed object; a key written twice keeps its last
    value, as [JSON.parse] does. *)
Definition lookup (k : string) (fields : list (string * val)) : val :=
  match find (fun kv => String.eqb (fst kv) k) (rev fields) with
  | Some kv => snd kv
  | None => Undefined
  end.

(** [v.k] for the keys the page reads ([transcript], [text],
    [translated_text]), none of which is a property of arrays, strings,
    numbers or booleans.  [None] is the [TypeError] raised on [null] and
    [undefined]. *)
Definition get (v : val) (k : string) : option val :=
  match v with
  | Undefined | Null => None
  | Obj fields => Some (lookup k fields)
  | _ => Some Undefined
  end.

(** [v?.k] *)
Definition get_opt (v : val) (k : string) : val :=
  match get v k with
  | Some w => w
  | None => Undefined
  end.

(** [a || b] *)
Definition or (a b : val) : val := if truthy a then a else b.

End Js.

(* ================================================================== *)
(** ** translateText *)
(* ================================================================== *)

(** [mapLangForServer] of utils/languageUtils.js. *)
Definition mapLangForServer (region : string) : string :=
  if String.prefix "zh" region then "zh" else region.

(** The form [translateText] posts to [TRANS_URL]: [text],
    [source_language], [target_language].  [f_text] is the value handed to
    [fd.append("text", text)]; [FormData] sends its string conversion. *)
Record TranslateForm : Type := {
  f_text : Js.val;
  f_source_language : string;
  f_target_language : string
}.

Definition translateForm (text : Js.val) (src tgt : string) : TranslateForm :=
  {| f_text := text;
     f_source_language := mapLangForServer src;
     f_target_language := mapLangForServer tgt |}.

(** How the [fetch] of [translateText] ends: the promise rejects, the
    status is not ok, the body is not JSON, or the body parses to [d]. *)
Inductive FetchResult : Type :=
| FetchRejected
| HttpNotOk
| BodyNotJson
| Body (d : Js.val).

(** The value [translateText(text, src, tgt)] resolves to when the fetch of
    [translateForm text src tgt] ends as [r].  Every failure inside the
    [try] lands in the [catch], which returns [text]; the [TypeError] of
    reading a property of a [null] body is one of them.  The promise never
    rejects, hence a total function. *)
Definition translateText (text : Js.val) (src tgt : string) (r : FetchResult)
  : Js.val :=
  match r with
  | Body d =>
      match Js.get d "translated_text" with
      | None => text
      | Some tr =>
          if Js.truthy tr then tr
          else match Js.get d "text" with
               | None => text
               | Some t => Js.or t text
               end
      end
  | _ => text
  end.

(** The spec's reading of a response, to compare with the code: the first
    non-empty field among [translated_text], then [text]; [None] when the
    call failed or no such field is there. *)
Definition accepted_field (r : FetchResult) : option Js.val :=
  match r with
  | Body d =>
      let tr := Js.get_opt d "translated_text" in
      let t := Js.get_opt d "text" in
      if Js.truthy tr then Some tr
      else if Js.truthy t then Some t
      else None
  | _ => None
  end.

(* ================================================================== *)
(** ** Columns and the updaters passed to [setColumns] *)
(* ================================================================== *)

(** A column object.  [isOriginal] is [true] on the source column and
    absent (falsy) on the others. *)
Record Column : Type := {
  id : string;
  label : string;
  lang : string;
  lines : list Js.val;
  isOriginal : bool
}.

Definition set_lines (ls : list Js.val) (c : Column) : Column :=
  {| id := id c; label := label c; lang := lang c; lines := ls;
     isOriginal := isOriginal c |}.

Definition set_lang (l : string) (c : Column) : Column :=
  {| id := id c; label := label c; lang := l; lines := lines c;
     isOriginal := isOriginal c |}.

(** [Date.now().toString()] for a clock reading [now] (milliseconds). *)
Definition date_string (now : N) : string :=
  NilZero.string_of_uint (N.to_uint now).

(** The [over] argument of [newCol]: the fields it overrides. *)
Record ColumnOver : Type := {
  o_id : option string;
  o_label : option string;
  o_lang : option string;
  o_isOriginal : option bool
}.

Definition no_over : ColumnOver :=
  {| o_id := None; o_label := None; o_lang := None; o_isOriginal := None |}.

Definition newCol (now : N) (over : ColumnOver) : Column :=
  {| id := match o_id over with Some i => i | None => date_string now end;
     label := match o_label over with Some l => l | None => "Transcript" end;
     lang := match o_lang over with Some l => l | None => "en" end;
     lines := [];
     isOriginal := match o_isOriginal over with Some b => b | None => false end |}.

(** The initial value of the [columns] state. *)
Definition initial_columns : list Column :=
  [ newCol 0 {| o_id := Some "original"; o_label := Some "Original";
                o_lang := Some "auto"; o_isOriginal := Some true |} ].

(** [lines.filter((_, i) => i !== lineIndex)] *)
Fixpoint drop_index {A : Type} (lineIndex : nat) (ls : list A) : list A :=
  match ls, lineIndex with
  | [], _ => []
  | _ :: rest, O => rest
  | x :: rest, S k => x :: drop_index k rest
  end.

(** Each definition below is the function [p => ...] a handler hands to
    [setColumns]; React applies them to the state in the order queued. *)

(** ws.onmessage, the source line. *)
Definition appendOriginal (raw : Js.val) (p : list Column) : list Column :=
  map (fun c => if isOriginal c then set_lines (lines c ++ [raw]) c else c) p.

(** ws.onmessage, the line of a settled translation for column [cid]. *)
Definition appendTranslated (cid : string) (translated : Js.val)
           (p : list Column) : list Column :=
  map (fun c => if String.eqb (id c) cid
                then set_lines (lines c ++ [translated]) c else c) p.

Definition clearOutputs (p : list Column) : list Column :=
  map (set_lines []) p.

Definition removeColumn (cid : string) (p : list Column) : list Column :=
  filter (fun c => negb (String.eqb (id c) cid)) p.

Definition changeLang (cid : string) (l : string) (p : list Column)
  : list Column :=
  map (fun c => if String.eqb (id c) cid
                then set_lines [] (set_lang l c) else c) p.

(** The [setColumns] of [changeSrcLang]. *)
Definition changeSrcLang (l : string) (p : list Column) : list Column :=
  map (fun c => if isOriginal c then set_lang l c else c) p.

Definition deleteLine (columnId : string) (lineIndex : nat)
           (p : list Column) : list Column :=
  map (fun c => if String.eqb (id c) columnId
                then set_lines (drop_index lineIndex (lines c)) c else c) p.

Definition targets (p : list Column) : list Column :=
  filter (fun c => negb (isOriginal c)) p.

(** [addColumn]: the list after the click and whether the
    ["Max 2 targets"] alert was shown.  The guard reads the [columns] of
    the last render; every handler that changes the number of columns is
    a click handler, whose update React renders before the next event,
    so that value is the current list [p]. *)
Definition addColumn (now : N) (p : list Column) : list Column * bool :=
  if 2 <=? List.length (targets p) then (p, true)
  else (p ++ [newCol now no_over], false).

(** The language selector of a column ([onChange] in the column header):
    the source column goes to [changeSrcLang], any other to
    [changeLang] with its id. *)
Definition onLangChange (col : Column) (l : string) (p : list Column)
  : list Column :=
  if isOriginal col then changeSrcLang l p else changeLang (id col) l p.

(* ================================================================== *)
(** ** The audio block handler: slicing into wire chunks *)
(* ================================================================== *)

(** [pcm.slice(b, e)] of a [Uint8Array] for [0 <= b <= e]: the bytes at
    offsets [b .. e-1] that exist. *)
Definition slice (b e : nat) (pcm : list byte) : list byte :=
  firstn (e - b) (skipn b pcm).

(** The loop [for (let i = 0; i < pcm.length; i += 320)] of
    [proc.onaudioprocess], started at offset [i]: the slices it takes, in
    the order it takes them. *)
Equations? slices_from (pcm : list byte) (i : nat) : list (list byte)
  by wf (List.length pcm - i) lt :=
  slices_from pcm i with lt_dec i (List.length pcm) => {
    | left _ := slice i (i + 320) pcm :: slices_from pcm (i + 320);
    | right _ := [] }.
Proof. lia. Qed.

Definition slices (pcm : list byte) : list (list byte) := slices_from pcm 0.

(* ================================================================== *)
(** ** The page: React state, refs, sockets and pending work *)
(* ================================================================== *)

(** [WebSocket.readyState] *)
Definition CONNECTING : nat := 0.
Definition OPEN : nat := 1.
Definition CLOSING : nat := 2.
Definition CLOSED : nat := 3.

(** A WebSocket created by [openSocket]: the [srcLang] its handlers close
    over and its ready state. *)
Record Socket : Type := {
  srcLang : string;
  readyState : nat
}.

(** What [attachMic] stores in [streamRef.current]. *)
Record Capture : Type := {
  mediaStream : nat;
  ctx : nat;
  proc : nat
}.

(** How [await attachMic()] ends: the graph is wired, or [getUserMedia] or
    the graph setup throws an error with message [msg]. *)
Inductive MicOutcome : Type :=
| MicOk (c : Capture)
| MicFail (msg : string).

(** One translation call issued by the fan-out of ws.onmessage: the column
    object [col] it was issued for (its id and language as read from
    [colsRef.current]), the fragment, and the socket's source language. *)
Record Task : Type := {
  t_col : string;
  t_raw : Js.val;
  t_src : string;
  t_tgt : string
}.

(** Calls the page makes on the browser, in the order made (console output
    is left out). *)
Inductive Effect : Type :=
| WsNew (sid : nat) (src_lang : string)
| WsClose (sid : nat)
| WsSend (sid : nat) (frame : list byte)
| ProcDisconnect (c : Capture)
| CtxClose (c : Capture)
| TracksStop (c : Capture)
| Alert (msg : string)
| Fetch (form : TranslateForm).

(** The state variables [isLive], [wsConnected], [isProcessing],
    [columns]; the refs [wsRef], [streamRef]; and the world around them:
    every socket created so far (a socket's id is its position), every
    translation call issued so far (likewise) with the ids of those that
    have settled, the [attachMic] calls still awaited, the closures handed
    to [setTimeout] by [changeSrcLang] (the [isLive] and [columns] each
    one reads), and the effects so far.  A handler reads the state
    variables of the latest render, taken to be the current values: React
    renders the updates of one event before the next event is handled. *)
Record State : Type := {
  isLive : bool;
  wsConnected : bool;
  isProcessing : bool;
  columns : list Column;
  wsRef : option nat;
  streamRef : option Capture;
  socks : list Socket;
  tasks : list Task;
  settled : list nat;
  awaitingMic : nat;
  timers : list (bool * list Column);
  log : list Effect
}.

Definition initial : State :=
  {| isLive := false; wsConnected := false; isProcessing := false;
     columns := initial_columns; wsRef := None; streamRef := None;
     socks := []; tasks := []; settled := []; awaitingMic := 0;
     timers := []; log := [] |}.

(** Field updates. *)
Definition set_isLive (v : bool) (st : State) : State :=
  {| isLive := v; wsConnected := wsConnected st;
     isProcessing := isProcessing st; columns := columns st;
     wsRef := wsRef st; streamRef := streamRef st; socks := socks st;
     tasks := tasks st; settled := settled st;
     awaitingMic := awaitingMic st; timers := timers st; log := log st |}.

Definition set_wsConnected (v : bool) (st : State) : State :=
  {| isLive := isLive st; wsConnected := v;
     isProcessing := isProcessing st; columns := columns st;
     wsRef := wsRef st; streamRef := streamRef st; socks := socks st;
     tasks := tasks st; settled := settled st;
     awaitingMic := awaitingMic st; timers := timers st; log := log st |}.

Definition set_isProcessing (v : bool) (st : State) : State :=
  {| isLive := isLive st; wsConnected := wsConnected st; isProcessing := v;
     columns := columns st; wsRef := wsRef st; streamRef := streamRef st;
     socks := socks st; tasks := tasks st; settled := settled st;
     awaitingMic := awaitingMic st; timers := timers st; log := log st |}.

Definition set_columns (v : list Column) (st : State) : State :=
  {| isLive := isLive st; wsConnected := wsConnected st;
     isProcessing := isProcessing st; columns := v; wsRef := wsRef st;
     streamRef := streamRef st; socks := socks st; tasks := tasks st;
     settled := settled st; awaitingMic := awaitingMic st;
     timers := timers st; log := log st |}.

Definition set_wsRef (v : option nat) (st : State) : State :=
  {| isLive := isLive st; wsConnected := wsConnected st;
     isProcessing := isProcessing st; columns := columns st; wsRef := v;
     streamRef := streamRef st; socks := socks st; tasks := tasks st;
     settled := settled st; awaitingMic := awaitingMic st;
     timers := timers st; log := log st |}.

Definition set_streamRef (v : option Capture) (st : State) : State :=
  {| isLive := isLive st; wsConnected := wsConnected st;
     isProcessing := isProcessing st; columns := columns st;
     wsRef := wsRef st; streamRef := v; socks := socks st;
     tasks := tasks st; settled := settled st;
     awaitingMic := awaitingMic st; timers := timers st; log := log st |}.

Definition set_socks (v : list Socket) (st : State) : State :=
  {| isLive := isLive st; wsConnected := wsConnected st;
     isProcessing := isProcessing st; columns := columns st;
     wsRef := wsRef st; streamRef := streamRef st; socks := v;
     tasks := tasks st; settled := settled st;
     awaitingMic := awaitingMic st; timers := timers st; log := log st |}.

Definition set_tasks (v : list Task) (st : State) : State :=
  {| isLive := isLive st; wsConnected := wsConnected st;
     isProcessing := isProcessing st; columns := columns st;
     wsRef := wsRef st; streamRef := streamRef st; socks := socks st;
     tasks := v; settled := settled st; awaitingMic := awaitingMic st;
     timers := timers st; log := log st |}.

Definition set_settled (v : list nat) (st : State) : State :=
  {| isLive := isLive st; wsConnected := wsConnected st;
     isProcessing := isProcessing st; columns := columns st;
     wsRef := wsRef st; streamRef := streamRef st; socks := socks st;
     tasks := tasks st; settled := v; awaitingMic := awaitingMic st;
     timers := timers st; log := log st |}.

Definition set_awaitingMic (v : nat) (st : State) : State :=
  {| isLive := isLive st; wsConnected := wsConnected st;
     isProcessing := isProcessing st; columns := columns st;
     wsRef := wsRef st; streamRef := streamRef st; socks := socks st;
     tasks := tasks st; settled := settled st; awaitingMic := v;
     timers := timers st; log := log st |}.

Definition set_timers (v : list (bool * list Column)) (st : State) : State :=
  {| isLive := isLive st; wsConnected := wsConnected st;
     isProcessing := isProcessing st; columns := columns st;
     wsRef := wsRef st; streamRef := streamRef st; socks := socks st;
     tasks := tasks st; settled := settled st;
     awaitingMic := awaitingMic st; timers := v; log := log st |}.

Definition set_log (v : list Effect) (st : State) : State :=
  {| isLive := isLive st; wsConnected := wsConnected st;
     isProcessing := isProcessing st; columns := columns st;
     wsRef := wsRef st; streamRef := streamRef st; socks := socks st;
     tasks := tasks st; settled := settled st;
     awaitingMic := awaitingMic st; timers := timers st; log := v |}.

Definition emit (es : list Effect) (st : State) : State :=
  set_log (log st ++ es) st.

Fixpoint alter_nth {A : Type} (f : A -> A) (n : nat) (l : list A) : list A :=
  match l, n with
  | [], _ => []
  | x :: rest, O => f x :: rest
  | x :: rest, S k => x :: alter_nth f k rest
  end.

Definition set_readyState (r : nat) (s : Socket) : Socket :=
  {| srcLang := srcLang s; readyState := r |}.

(** [ws.close()]: a socket that is connecting or open starts closing. *)
Definition closing (s : Socket) : Socket :=
  if readyState s <? CLOSING then set_readyState CLOSING s else s.

(* ------------------------------------------------------------------ *)
(** *** Socket logic *)

Definition closeSocket (st : State) : State :=
  set_wsConnected false
    match wsRef st with
    | Some sid =>
        set_wsRef None
          (emit [WsClose sid] (set_socks (alter_nth closing sid (socks st)) st))
    | None => st
    end.

(** [stopLive] as a closure that read [seen] for [isLive]. *)
Definition stopLive_with (seen : bool) (st : State) : State :=
  if negb seen then st
  else
    let st1 := closeSocket (set_isLive false st) in
    match streamRef st1 with
    | Some s =>
        set_streamRef None
          (emit [ProcDisconnect s; CtxClose s; TracksStop s] st1)
    | None => st1
    end.

(** [stopLive] of the latest render (the Stop button). *)
Definition stopLive (st : State) : State := stopLive_with (isLive st) st.

Definition openSocket (sl : string) (st : State) : State :=
  let st1 := closeSocket st in
  let sid := List.length (socks st1) in
  set_wsRef (Some sid)
    (emit [WsNew sid (mapLangForServer sl)]
       (set_socks (socks st1 ++ [{| srcLang := sl; readyState := CONNECTING |}])
          st1)).

Definition ws_onopen (st : State) : State := set_wsConnected true st.

Definition ws_onclose (st : State) : State := set_wsConnected false st.

(** ws.onerror.  Its [stopLive] is the one [openSocket] closed over, of
    the render whose [startLive] opened the socket; [startLive] gets to
    [openSocket] only when the [isLive] of that render is false. *)
Definition ws_onerror (st : State) : State :=
  stopLive_with false (set_wsConnected false st).

Definition fetch_of (t : Task) : Effect :=
  Fetch (translateForm (t_raw t) (t_src t) (t_tgt t)).

(** ws.onmessage of a socket opened with source language [sl]; [data] is
    the outcome of [JSON.parse(data)], [None] when it throws.  Whatever is
    thrown inside the [try] is caught, so the handler always returns.
    [colsRef.current] holds the columns of the latest render; the fan-out
    reads the id, language and flag of each, which no pending line update
    changes. *)
Definition ws_onmessage (sl : string) (data : option Js.val) (st : State)
  : State :=
  match data with
  | None => st
  | Some m =>
      match Js.get m "transcript" with
      | None => st
      | Some transcript =>
          let raw := if Js.typeof_object transcript
                     then Js.get_opt transcript "text" else transcript in
          if negb (Js.truthy raw) then st
          else
            let issued :=
              map (fun col => {| t_col := id col; t_raw := raw;
                                 t_src := sl; t_tgt := lang col |})
                  (targets (columns st)) in
            set_tasks (tasks st ++ issued)
              (emit (map fetch_of issued)
                 (set_columns (appendOriginal raw (columns st)) st))
      end
  end.

(** The continuation of the fan-out callback for call [k], once its
    [translateText] has resolved from a fetch that ended as [r]. *)
Definition translated (k : nat) (r : FetchResult) (st : State) : State :=
  match nth_error (tasks st) k with
  | None => st
  | Some t =>
      if existsb (Nat.eqb k) (settled st) then st
      else
        set_settled (k :: settled st)
          (set_columns
             (appendTranslated (t_col t)
                (translateText (t_raw t) (t_src t) (t_tgt t) r)
                (columns st))
             st)
  end.

(* ------------------------------------------------------------------ *)
(** *** Mic stream *)

(** [wsRef.current && wsRef.current.readyState === 1] *)
Definition ws_ready (st : State) : option nat :=
  match wsRef st with
  | Some sid =>
      match nth_error (socks st) sid with
      | Some s => if readyState s =? OPEN then Some sid else None
      | None => None
      end
  | None => None
  end.

(** The body of the loop of [proc.onaudioprocess] for one slice. *)
Definition send_slice (st : State) (frame : list byte) : State :=
  match ws_ready st with
  | Some sid => emit [WsSend sid frame] st
  | None => st
  end.

(** [proc.onaudioprocess] for a block whose encoding is [pcm] (the bytes
    of [floatTo16BitPCM(downsampleBuffer(...))]). *)
Definition onaudioprocess (pcm : list byte) (st : State) : State :=
  fold_left send_slice (slices pcm) st.

(** [columns.find((c) => c.isOriginal)?.lang || "auto"] *)
Definition source_lang (cols : list Column) : string :=
  match find isOriginal cols with
  | Some c => if String.eqb (lang c) "" then "auto" else lang c
  | None => "auto"
  end.

(** [startLive] up to [await attachMic()], as a closure that read
    [seen_live] for [isLive] and [seen_cols] for [columns]. *)
Definition startLive_begin_with (seen_live : bool) (seen_cols : list Column)
           (st : State) : State :=
  if seen_live then st
  else
    set_awaitingMic (S (awaitingMic st))
      (openSocket (source_lang seen_cols) (set_isProcessing true st)).

(** [attachMic], its awaits having ended as [o]: the capture is stored in
    [streamRef.current], or the error thrown comes back with its message. *)
Definition attachMic (o : MicOutcome) (st : State) : State + string :=
  match o with
  | MicOk c => inl (set_streamRef (Some c) st)
  | MicFail msg => inr msg
  end.

(** [startLive] from the [await] on, [attachMic] having ended as [o]. *)
Definition startLive_resume (o : MicOutcome) (st : State) : State :=
  set_isProcessing false
    match attachMic o st with
    | inl st1 => set_isLive true st1
    | inr msg =>
        closeSocket (emit [Alert ("Microphone error: " ++ msg)%string] st)
    end.

(** [startLive] of the latest render, with nothing else running while
    it awaits. *)
Definition startLive (o : MicOutcome) (st : State) : State :=
  if isLive st then st
  else
    let st1 := startLive_begin_with (isLive st) (columns st) st in
    set_awaitingMic (pred (awaitingMic st1)) (startLive_resume o st1).

(* ------------------------------------------------------------------ *)
(** *** Actions *)

Definition addColumn_click (now : N) (st : State) : State :=
  let '(p, alerted) := addColumn now (columns st) in
  if alerted then emit [Alert "Max 2 targets"] st else set_columns p st.

(** [changeSrcLang]: the update, [stopLive()], and
    [setTimeout(startLive, 200)] with the [startLive] of this render. *)
Definition changeSrcLang_handler (l : string) (st : State) : State :=
  let st1 := stopLive_with (isLive st)
               (set_columns (changeSrcLang l (columns st)) st) in
  set_timers (timers st1 ++ [(isLive st, columns st)]) st1.

(** The language selector in the header of column [col]. *)
Definition lang_select (col : Column) (l : string) (st : State) : State :=
  if isOriginal col then changeSrcLang_handler l st
  else set_columns (changeLang (id col) l (columns st)) st.

(* ------------------------------------------------------------------ *)
(** *** Events *)

(** What can happen to the page: clicks, the settling of what it awaits,
    and the callbacks of its sockets and of its audio node.  [sid] names a
    socket, [k] a translation call, [i] the position of a column on
    screen. *)
Inductive Event : Type :=
| StartClick
| MicSettled (o : MicOutcome)
| StopClick
| TimerFired
| SockOpen (sid : nat)
| SockClosing (sid : nat)
| SockClose (sid : nat)
| SockError (sid : nat)
| SockMessage (sid : nat) (data : option Js.val)
| Translated (k : nat) (r : FetchResult)
| AudioBlock (pcm : list byte)
| AddClick (now : N)
| RemoveClick (i : nat)
| LangSelect (i : nat) (l : string)
| ClearClick
| DeleteLineClick (i : nat) (lineIndex : nat).

(** One event.  The Start button is disabled while [isLive || isProcessing]
    and the Stop button while [!isLive]; the Remove button is rendered on
    columns that are not the original one; a socket fires [open] while
    connecting, [message] while open, and [close] once.  [SockClosing] is
    the closing handshake started by the server on an open socket: the
    browser sets [readyState] to CLOSING and calls no handler until the
    [close] event. *)
Definition step (e : Event) (st : State) : State :=
  match e with
  | StartClick =>
      if isLive st || isProcessing st then st
      else startLive_begin_with (isLive st) (columns st) st
  | MicSettled o =>
      match awaitingMic st with
      | O => st
      | S n => set_awaitingMic n (startLive_resume o st)
      end
  | StopClick => if isLive st then stopLive st else st
  | TimerFired =>
      match timers st with
      | [] => st
      | (seen_live, seen_cols) :: rest =>
          startLive_begin_with seen_live seen_cols (set_timers rest st)
      end
  | SockOpen sid =>
      match nth_error (socks st) sid with
      | Some s =>
          if readyState s =? CONNECTING
          then ws_onopen
                 (set_socks (alter_nth (set_readyState OPEN) sid (socks st)) st)
          else st
      | None => st
      end
  | SockClosing sid =>
      match nth_error (socks st) sid with
      | Some s =>
          if readyState s =? OPEN
          then set_socks (alter_nth (set_readyState CLOSING) sid (socks st)) st
          else st
      | None => st
      end
  | SockClose sid =>
      match nth_error (socks st) sid with
      | Some s =>
          if readyState s =? CLOSED then st
          else ws_onclose
                 (set_socks (alter_nth (set_readyState CLOSED) sid (socks st))
                    st)
      | None => st
      end
  | SockError sid =>
      match nth_error (socks st) sid with
      | Some _ => ws_onerror st
      | None => st
      end
  | SockMessage sid data =>
      match nth_error (socks st) sid with
      | Some s =>
          if readyState s =? OPEN then ws_onmessage (srcLang s) data st
          else st
      | None => st
      end
  | Translated k r => translated k r st
  | AudioBlock pcm => onaudioprocess pcm st
  | AddClick now => addColumn_click now st
  | RemoveClick i =>
      match nth_error (columns st) i with
      | Some col =>
          if isOriginal col then st
          else set_columns (removeColumn (id col) (columns st)) st
      | None => st
      end
  | LangSelect i l =>
      match nth_error (columns st) i with
      | Some col => lang_select col l st
      | None => st
      end
  | ClearClick => set_columns (clearOutputs (columns st)) st
  | DeleteLineClick i lineIndex =>
      match nth_error (columns st) i with
      | Some col =>
          set_columns (deleteLine (id col) lineIndex (columns st)) st
      | None => st
      end
  end.

Definition run (evs : list Event) (st : State) : State :=
  fold_left (fun s e => step e s) evs st.

(* ------------------------------------------------------------------ *)
(** *** The operations on the column list, by themselves *)

(** The mutations of the column list, each with the arguments its
    function takes. *)
Inductive Op : Type :=
| OpAdd (now : N)
| OpRemove (cid : string)
| OpSetLang (cid : string) (l : string)
| OpSetSrcLang (l : string)
| OpClear
| OpAppendOriginal (raw : Js.val)
| OpAppend (cid : string) (text : Js.val)
| OpDeleteLine (cid : string) (lineIndex : nat).

Definition apply_op (op : Op) (p : list Column) : list Column :=
  match op with
  | OpAdd now => fst (addColumn now p)
  | OpRemove cid => removeColumn cid p
  | OpSetLang cid l => changeLang cid l p
  | OpSetSrcLang l => changeSrcLang l p
  | OpClear => clearOutputs p
  | OpAppendOriginal raw => appendOriginal raw p
  | OpAppend cid text => appendTranslated cid text p
  | OpDeleteLine cid lineIndex => deleteLine cid lineIndex p
  end.

Definition apply_ops (ops : list Op) (p : list Column) : list Column :=
  fold_left (fun q op => apply_op op q) ops p.

(** The columns carrying the source flag. *)
Definition sources (p : list Column) : list Column := filter isOriginal p.

(** Does [op] ask to remove the column with the id of the original one? *)
Definition removes_original (op : Op) : bool :=
  match op with
  | OpRemove cid => String.eqb cid "original"
  | _ => false
  end.

(* ================================================================== *)
(** ** Scenarios used as examples *)
(* ================================================================== *)

(** A transcript message carrying the plain string [s], and the reply of
    the translation service carrying [s], for the examples. *)
Definition transcript_message (s : string) : option Js.val :=
  Some (Js.Obj [("transcript", Js.Str s)]).

Definition reply (s : string) : FetchResult :=
  Body (Js.Obj [("translated_text", Js.Str s)]).

Definition mic0 : Capture := {| mediaStream := 0; ctx := 0; proc := 0 |}.

(** Two target columns are added, a capture starts, four fragments arrive,
    and the first target column is removed while its call for the fourth
    fragment (call 6) is outstanding. *)
Definition removed_while_outstanding : State :=
  run [AddClick 1; AddClick 2; StartClick; MicSettled (MicOk mic0);
       SockOpen 0;
       SockMessage 0 (transcript_message "zero");
       SockMessage 0 (transcript_message "one");
       SockMessage 0 (transcript_message "two");
       SockMessage 0 (transcript_message "three");
       RemoveClick 1]
      initial.

(** The original column after one fragment ["hello"] has arrived. *)
Definition one_line_page : list Column :=
  appendOriginal (Js.Str "hello") initial_columns.

Definition hello_column : Column :=
  {| id := "original"; label := "Original"; lang := "auto";
     lines := [Js.Str "hello"]; isOriginal := true |}.

(** A capture is running and its socket is open. *)
Definition live_page : State :=
  run [StartClick; MicSettled (MicOk mic0); SockOpen 0] initial.

(** The graph of a second [attachMic]. *)
Definition mic1 : Capture := {| mediaStream := 1; ctx := 1; proc := 1 |}.

(** On the page as loaded the source language is set to ["fr"], which
    leaves [startLive] with [setTimeout] for 200 ms; before the timer
    fires, Start is clicked, the microphone is granted and the socket
    opens.  A capture is running and the timer is still pending. *)
Definition started_before_timer : State :=
  run [LangSelect 0 "fr"; StartClick; MicSettled (MicOk mic0); SockOpen 0]
      initial.

(** The encoding of one block of 4096 samples taken at 16 kHz, where
    nothing is resampled: 8192 bytes. *)
Definition block_16k : list byte := repeat Byte.x00 8192.

(* ================================================================== *)
(** ** Shapes of inbound messages *)
(* ================================================================== *)

(** The spec's words for a message that carries a fragment: the transcript
    field is a non-empty plain string, or an object with a non-empty
    [text] string. *)
Definition carries_fragment (data : option Js.val) : bool :=
  match data with
  | Some (Js.Obj fields) =>
      match Js.lookup "transcript" fields with
      | Js.Str s => negb (String.eqb s "")
      | Js.Obj tfields =>
          match Js.lookup "text" tfields with
          | Js.Str s => negb (String.eqb s "")
          | _ => false
          end
      | _ => false
      end
  | _ => false
  end.

(** The transcripts the handler passes over, shape by shape: a missing
    field, [null], an array, [false], zero, the empty string, and an
    object whose [text] is missing or falsy. *)
Definition passed_over_transcript (t : Js.val) : bool :=
  match t with
  | Js.Undefined | Js.Null | Js.Arr _ => true
  | Js.Bool b => negb b
  | Js.Num z => Z.eqb z 0
  | Js.Str s => String.eqb s ""
  | Js.Obj tfields => negb (Js.truthy (Js.lookup "text" tfields))
  end.

(** The messages the handler passes over: data that does not parse, a
    parsed value that is not an object, and an object whose transcript
    is passed over. *)
Definition passed_over (data : option Js.val) : bool :=
  match data with
  | None => true
  | Some (Js.Obj fields) =>
      passed_over_transcript (Js.lookup "transcript" fields)
  | Some _ => true
  end.

(** A message whose transcript is the number 5. *)
Definition number_message : option Js.val :=
  Some (Js.Obj [("transcript", Js.Num 5)]).

(* ================================================================== *)
(** ** Settling of translation calls *)
(* ================================================================== *)

(** The event of call [k] settling with [r], for a list of such pairs. *)
Definition settlings (ks : list (nat * FetchResult)) : list Event :=
  map (fun kr => Translated (fst kr) (snd kr)) ks.


(** One target column, a running capture, and the fragments 0, 1, 2
    received: calls 0, 1, 2 are outstanding for the target column. *)
Definition three_fragments : State :=
  run [AddClick 1; StartClick; MicSettled (MicOk mic0); SockOpen 0;
       SockMessage 0 (transcript_message "zero");
       SockMessage 0 (transcript_message "one");
       SockMessage 0 (transcript_message "two")]
      initial.


(* ================================================================== *)
(** ** Sessions *)
(* ================================================================== *)

(** Every socket created so far is closing or closed. *)
Definition all_closed (st : State) : Prop :=
  forall sid s, nth_error (socks st) sid = Some s -> CLOSING <= readyState s.

(** A socket that is connecting or open is the one [wsRef] holds. *)
Definition open_is_current (st : State) : Prop :=
  forall sid s,
    nth_error (socks st) sid = Some s -> readyState s < CLOSING ->
    wsRef st = Some sid.


(** The columns without the flag have ids other than ["original"]. *)
Definition targets_named (p : list Column) : Prop :=
  forall c, In c p -> isOriginal c = false -> id c <> "original".

(* ================================================================== *)
(** ** Invariants of the column list *)
(* ================================================================== *)

(** The updaters other than [addColumn] and [removeColumn] are maps by a
    function that touches neither [id] nor [isOriginal]. *)
Definition op_map (op : Op) : Column -> Column :=
  match op with
  | OpSetLang cid l =>
      fun c => if String.eqb (id c) cid then set_lines [] (set_lang l c) else c
  | OpSetSrcLang l => fun c => if isOriginal c then set_lang l c else c
  | OpClear => set_lines []
  | OpAppendOriginal raw =>
      fun c => if isOriginal c then set_lines (lines c ++ [raw]) c else c
  | OpAppend cid text =>
      fun c => if String.eqb (id c) cid
               then set_lines (lines c ++ [text]) c else c
  | OpDeleteLine cid lineIndex =>
      fun c => if String.eqb (id c) cid
               then set_lines (drop_index lineIndex (lines c)) c else c
  | _ => fun c => c
  end.

(** The invariant of the column list: one column carries the flag, and it
    is the one with id ["original"]. *)
Definition one_source (p : list Column) : Prop :=
  exists c, sources p = [c] /\ id c = "original" /\ isOriginal c = true.

(* ================================================================== *)
(** ** Clock readings of a run of operations *)
(* ================================================================== *)

(** The clock readings at which [addColumn] was called. *)
Definition add_times (ops : list Op) : list N :=
  flat_map (fun op => match op with OpAdd now => [now] | _ => [] end) ops.

(** The operations that touch lines only: appends, deletion of a line,
    clearing. *)
Definition line_op (op : Op) : bool :=
  match op with
  | OpClear | OpAppendOriginal _ | OpAppend _ _ | OpDeleteLine _ _ => true
  | _ => false
  end.

(* ================================================================== *)
(** ** Lines and rows *)
(* ================================================================== *)

(** Every line of every column is truthy. *)
Definition lines_truthy (p : list Column) : bool :=
  forallb (fun c => forallb Js.truthy (lines c)) p.

(** Every translation call carries a truthy fragment. *)
Definition tasks_truthy (ts : list Task) : bool :=
  forallb (fun t => Js.truthy (t_raw t)) ts.

(** An operation that appends appends a truthy value. *)
Definition op_truthy (op : Op) : bool :=
  match op with
  | OpAppendOriginal raw => Js.truthy raw
  | OpAppend _ text => Js.truthy text
  | _ => true
  end.

(** [Math.max(...columns.map((c) => c.lines.length))]; [None] is the
    [-Infinity] of an empty column list. *)
Definition maxLines (p : list Column) : option nat :=
  match p with
  | [] => None
  | _ :: _ => Some (list_max (map (fun c => List.length (lines c)) p))
  end.

(** The rows shown for a column:
    [[...col.lines, ...Array(Math.max(0, maxLines - col.lines.length)).fill("")]]. *)
Definition rows (m : option nat) (col : Column) : list Js.val :=
  lines col ++
  repeat (Js.Str "")
         (match m with
          | Some n => n - List.length (lines col)
          | None => 0
          end).

(** The events behind [three_fragments], followed by the settling of
    call 0. *)
Definition first_settled_events : list Event :=
  [AddClick 1; StartClick; MicSettled (MicOk mic0); SockOpen 0;
   SockMessage 0 (transcript_message "zero");
   SockMessage 0 (transcript_message "one");
   SockMessage 0 (transcript_message "two");
   Translated 0 (reply "ZERO")].

Definition target_with_one_line : Column :=
  {| id := "1"; label := "Transcript"; lang := "en";
     lines := [Js.Str "ZERO"]; isOriginal := false |}.

(* ================================================================== *)
(** ** Fragments *)
(* ================================================================== *)

(** The fragment a message carries, if any: the transcript itself, or its
    [text] when the transcript is an object, provided it is truthy. *)
Definition fragment (data : option Js.val) : option Js.val :=
  match data with
  | Some (Js.Obj fields) =>
      let raw := match Js.lookup "transcript" fields with
                 | Js.Obj tfields => Js.lookup "text" tfields
                 | Js.Null | Js.Arr _ => Js.Undefined
                 | t => t
                 end in
      if Js.truthy raw then Some raw else None
  | _ => None
  end.

Definition fragments (datas : list (option Js.val)) : list Js.val :=
  flat_map (fun d => match fragment d with Some raw => [raw] | None => [] end)
           datas.

(** The translation calls for one fragment: one per target column, in the
    order of the columns. *)
Definition fan_out (sl : string) (p : list Column) (raw : Js.val) : list Task :=
  map (fun col => {| t_col := id col; t_raw := raw;
                     t_src := sl; t_tgt := lang col |})
      (targets p).

(** [isLive] and [streamRef] agree: live with a capture, or neither. *)
Definition has_capture (st : State) : bool :=
  Bool.eqb (isLive st)
           (match streamRef st with Some _ => true | None => false end).

(* ================================================================== *)
(** ** Order of the effects *)
(* ================================================================== *)

(** Socket [sid] exists and is closing or closed. *)
Definition closed_sock (st : State) (sid : nat) : Prop :=
  exists s, nth_error (socks st) sid = Some s /\ CLOSING <= readyState s.

(** [wsRef] holds a socket that was created. *)
Definition wsRef_valid (st : State) : Prop :=
  forall sid, wsRef st = Some sid -> sid < List.length (socks st).

(** An effect that is not a send, and if a connection, not one for an
    empty language. *)
Definition quiet_effect (eff : Effect) : Prop :=
  match eff with
  | WsSend _ _ => False
  | WsNew _ l => l <> ""
  | _ => True
  end.

(** An effect other than a connection for an empty language. *)
Definition named_connection (eff : Effect) : Prop :=
  match eff with
  | WsNew _ l => l <> ""
  | _ => True
  end.

(** A log built effect by effect in which every send goes to a socket that
    no earlier effect has closed. *)
Inductive Ordered : list Effect -> Prop :=
| Ordered_nil : Ordered []
| Ordered_send (l : list Effect) (sid : nat) (f : list byte) :
    Ordered l -> ~ In (WsClose sid) l -> Ordered (l ++ [WsSend sid f])
| Ordered_other (l : list Effect) (e : Effect) :
    Ordered l -> (forall sid f, e <> WsSend sid f) -> Ordered (l ++ [e]).

(** A change of state that sends nothing: it adds quiet effects to the
    log, every socket it closes is closed afterwards, and closed sockets
    stay closed. *)
Definition quiet_step (st st' : State) : Prop :=
  wsRef_valid st ->
  wsRef_valid st' /\
  exists es,
    log st' = log st ++ es /\
    Forall quiet_effect es /\
    (forall sid, In (WsClose sid) es -> closed_sock st' sid) /\
    (forall sid, closed_sock st sid -> closed_sock st' sid).

(** The invariant of the log. *)
Definition log_ordered (st : State) : Prop :=
  wsRef_valid st /\
  (forall sid, In (WsClose sid) (log st) -> closed_sock st sid) /\
  Ordered (log st) /\
  Forall named_connection (log st).

(* ================================================================== *)
(** ** Voices *)
(* ================================================================== *)

(** The edge_tts voice maps. *)
Definition MALE_VOICE : list (string * string) :=
  [("en", "en-SG-WayneNeural"); ("ja", "ja-JP-KeitaNeural");
   ("zh_CN", "zh-CN-YunjianNeural"); ("zh_TW", "zh-TW-YunJheNeural");
   ("ms", "ms-MY-OsmanNeural"); ("es", "es-AR-TomasNeural");
   ("fr", "fr-BE-GerardNeural"); ("hi", "hi-IN-MadhurNeural");
   ("it", "it-IT-DiegoNeural"); ("pt", "pt-BR-AntonioNeural");
   ("ko", "ko-KR-InJoonNeural"); ("vi", "vi-VN-NamMinhNeural");
   ("ta", "ta-SG-AnbuNeural"); ("th", "th-TH-NiwatNeural")].

Definition FEMALE_VOICE : list (string * string) :=
  [("en", "en-SG-LunaNeural"); ("ja", "ja-JP-NanamiNeural");
   ("zh_CN", "zh-CN-XiaoxiaoNeural"); ("zh_TW", "zh-TW-HsiaoChenNeural");
   ("ms", "ms-MY-YasminNeural"); ("es", "es-AR-ElenaNeural");
   ("fr", "fr-BE-CharlineNeural"); ("hi", "hi-IN-SwaraNeural");
   ("it", "it-IT-ElsaNeural"); ("pt", "pt-BR-FranciscaNeural");
   ("ko", "ko-KR-SunHiNeural"); ("vi", "vi-VN-HoaiMyNeural");
   ("ta", "ta-SG-VenbaNeural"); ("th", "th-TH-PremwadeeNeural")].

(** The Kokoro voice maps (their [zh] entries are commented out). *)
Definition MALE_VOICE_KKR : list (string * string) :=
  [("en", "am_michael"); ("ja", "jf_alpha"); ("es", "bm_george");
   ("fr", "hm_omega"); ("hi", "hm_psi"); ("it", "im_nicola");
   ("pt", "bm_lewis")].

Definition FEMALE_VOICE_KKR : list (string * string) :=
  [("en", "af_bella"); ("ja", "jf_nezumi"); ("es", "bf_isabella");
   ("fr", "ff_siwis"); ("hi", "if_sara"); ("it", "jf_gongitsune");
   ("pt", "pf_dora")].

(** [lang.replace("-", "_")]: the first dash becomes an underscore. *)
Fixpoint replace_dash (s : string) : string :=
  match s with
  | EmptyString => EmptyString
  | String c rest =>
      if Ascii.eqb c "-" then String "_" rest
      else String c (replace_dash rest)
  end.

Definition getVoiceKey (lang : string) : string :=
  if String.prefix "zh" lang then replace_dash lang
  else String.substring 0 2 lang.

(** [MAP[key]] for a voice map; [None] is [undefined].  A key made by
    [getVoiceKey] starts with [zh] or has at most two characters, so it
    names no property inherited from [Object.prototype]. *)
Definition voice_in (table : list (string * string)) (key : string)
  : option string :=
  option_map snd (find (fun kv => String.eqb (fst kv) key) table).

(** The voice [playTTS] and the play buttons look up for a language, and
    the one [playTTS_kokoro] looks up. *)
Definition tts_voice (male : bool) (lang : string) : option string :=
  voice_in (if male then MALE_VOICE else FEMALE_VOICE) (getVoiceKey lang).

Definition tts_voice_kokoro (male : bool) (lang : string) : option string :=
  voice_in (if male then MALE_VOICE_KKR else FEMALE_VOICE_KKR)
           (getVoiceKey lang).

Definition is_some {A : Type} (o : option A) : bool :=
  match o with Some _ => true | None => false end.

(* ================================================================== *)
(** ** The transcript summary *)
(* ================================================================== *)

(** [s.split(sep)] for a separator of one character. *)
Fixpoint split_on (sep : ascii) (s : string) : list string :=
  match s with
  | EmptyString => [EmptyString]
  | String c rest =>
      if Ascii.eqb c sep then EmptyString :: split_on sep rest
      else match split_on sep rest with
           | part :: parts => String c part :: parts
           | [] => [String c EmptyString]
           end
  end.

Fixpoint count_char (sep : ascii) (s : string) : nat :=
  match s with
  | EmptyString => 0
  | String c rest => (if Ascii.eqb c sep then 1 else 0) + count_char sep rest
  end.

(** [line.split(' ').length]; [None] is the [TypeError] of calling
    [split] on a line that is not a string. *)
Definition line_words (line : Js.val) : option nat :=
  match line with
  | Js.Str s => Some (List.length (split_on " " s))
  | _ => None
  end.

(** [lines.reduce((acc, line) => acc + line.split(' ').length, 0)] *)
Definition count_words (ls : list Js.val) : option nat :=
  fold_left (fun acc line =>
               match acc, line_words line with
               | Some a, Some w => Some (a + w)
               | _, _ => None
               end)
            ls (Some 0).

(** [lines.reduce((acc, line) => acc + line.length, 0)], evaluated once
    the word count has gone through, that is on strings.  A string here is
    a list of one-byte characters, so [String.length] is the [length] of
    JavaScript (UTF-16 units) for text in that range. *)
Definition count_chars (ls : list Js.val) : nat :=
  fold_left (fun acc line =>
               acc + match line with
                     | Js.Str s => String.length s
                     | _ => 0
                     end)
            ls 0.

(** The values [getTranscriptSummary] puts into its template. *)
Record Summary : Type := {
  totalLines : nat;
  totalWords : nat;
  totalChars : nat;
  sourceLanguage : string;
  translationLanguages : string;
  recordingDuration : string
}.

(** [a || b] on strings. *)
Definition or_string (a b : string) : string :=
  if String.eqb a "" then b else a.

Definition getTranscriptSummary (cols : list Column) (live : bool)
  : option Summary :=
  let originalCol := find isOriginal cols in
  let translationCols := targets cols in
  let ls := match originalCol with Some c => lines c | None => [] end in
  match count_words ls with
  | None => None
  | Some words =>
      Some {| totalLines := List.length ls;
              totalWords := words;
              totalChars := count_chars ls;
              sourceLanguage :=
                match originalCol with
                | Some c => or_string (lang c) "Unknown"
                | None => "Unknown"
                end;
              translationLanguages :=
                or_string (String.concat ", " (map lang translationCols))
                          "None";
              recordingDuration :=
                if live then "Still recording..." else "Completed" |}
  end.

(** The spaces in the lines that are strings. *)
Definition count_spaces (ls : list Js.val) : nat :=
  list_sum (map (fun line => match line with
                             | Js.Str s => count_char " " s
                             | _ => 0
                             end) ls).

Definition is_string (v : Js.val) : bool :=
  match v with Js.Str _ => true | _ => false end.

(* ================================================================== *)
(** * Properties *)
(* ================================================================== *)

(** ** translateText *)

Lemma truthy_Str (s : string) : Js.truthy (Js.Str s) = true <-> s <> "".
Proof.
  simpl. destruct (String.eqb_spec s ""); simpl; split; congruence.
Qed.

Lemma accepted_field_truthy (r : FetchResult) (v : Js.val) :
  accepted_field r = Some v -> Js.truthy v = true.
Proof.
  destruct r as [ | | | d]; simpl; try discriminate.
  destruct (Js.truthy (Js.get_opt d "translated_text")) eqn:E1.
  - intros [= <-]. exact E1.
  - destruct (Js.truthy (Js.get_opt d "text")) eqn:E2; [ | discriminate].
    intros [= <-]. exact E2.
Qed.

Lemma translateText_accepted (text : Js.val) (src tgt : string)
      (r : FetchResult) :
  translateText text src tgt r =
    match accepted_field r with Some v => v | None => text end.
Proof.
  destruct r as [ | | | d]; simpl; try reflexivity.
  unfold Js.get_opt, Js.or.
  destruct d; simpl; try reflexivity.
  destruct (Js.truthy (Js.lookup "translated_text" fields)); [reflexivity | ].
  destruct (Js.truthy (Js.lookup "text" fields)); reflexivity.
Qed.

Lemma existsb_eqb_false (k : nat) (l : list nat) :
  ~ In k l -> existsb (Nat.eqb k) l = false.
Proof.
  intros H. destruct (existsb (Nat.eqb k) l) eqn:E; [ | reflexivity].
  apply existsb_exists in E. destruct E as (x & Hx & Ex).
  apply Nat.eqb_eq in Ex. now subst x.
Qed.

(** C3: when the call fails (the fetch rejects, the status is not ok, the
    body is not JSON) or the response has no non-empty (truthy)
    [translated_text] or [text], [translateText] resolves to the fragment
    it was given; when the response has such a field, the first of
    [translated_text], [text] is what it resolves to.  It resolves in every
    case: the function is total.  And what it resolves to is the line
    appended: when the call issued for column [cid] with fragment [text]
    settles, the page has the same columns at the same places, every column
    with another id is as it was, and every column with id [cid] keeps its
    id, label, language and flag and has its former lines followed by one
    more line, the fragment [text] itself when the call failed or gave no
    such field. *)
Theorem translateText_fallback :
  forall (text : Js.val) (src tgt : string) (r : FetchResult),
    (accepted_field r = None -> translateText text src tgt r = text) /\
    (forall v, accepted_field r = Some v -> translateText text src tgt r = v) /\
    translateText text src tgt FetchRejected = text /\
    translateText text src tgt HttpNotOk = text /\
    translateText text src tgt BodyNotJson = text /\
    (forall (st : State) (k : nat) (cid : string),
       nth_error (tasks st) k
         = Some {| t_col := cid; t_raw := text; t_src := src; t_tgt := tgt |} ->
       ~ In k (settled st) ->
       List.length (columns (step (Translated k r) st))
         = List.length (columns st) /\
       forall (i : nat) (c : Column),
         nth_error (columns st) i = Some c ->
         exists c',
           nth_error (columns (step (Translated k r) st)) i = Some c' /\
           (id c <> cid -> c' = c) /\
           (id c = cid ->
            id c' = id c /\ label c' = label c /\ lang c' = lang c /\
            isOriginal c' = isOriginal c /\
            (accepted_field r = None -> lines c' = lines c ++ [text]) /\
            (forall v, accepted_field r = Some v ->
                       lines c' = lines c ++ [v]))).
Proof.
  intros text src tgt r.
  pose proof (translateText_accepted text src tgt r) as H.
  split; [ | split; [ | split; [ | split; [ | split]]]]; try reflexivity.
  - intros E. now rewrite H, E.
  - intros v E. now rewrite H, E.
  - intros st k cid Hk Hs. cbn [step]. unfold translated.
    rewrite Hk, (existsb_eqb_false _ _ Hs).
    cbn [columns set_settled set_columns t_col t_raw t_src t_tgt].
    unfold appendTranslated. split; [apply length_map | ].
    intros i c Hc. rewrite nth_error_map, Hc. cbn [option_map].
    eexists. split; [reflexivity | ].
    destruct (String.eqb_spec (id c) cid) as [E | E].
    + split; [intros Hne; now elim Hne | ]. intros _.
      cbn [id label lang isOriginal lines set_lines]. rewrite H.
      repeat split.
      * intros En. now rewrite En.
      * intros v Ev. now rewrite Ev.
    + split; [reflexivity | ]. intros E'. now elim E.
Qed.

Lemma translateText_fallback_witness :
  let text := Js.Str "hello" in
  let r := Body (Js.Obj [("translated_text", Js.Str ""); ("detail", Js.Num 1)]) in
  accepted_field r = None /\
  translateText text "en" "fr" r = text /\
  accepted_field (Body (Js.Obj [("text", Js.Str "bonjour")]))
    = Some (Js.Str "bonjour") /\
  translateText text "en" "fr" (Body (Js.Obj [("text", Js.Str "bonjour")]))
    = Js.Str "bonjour" /\
  exists c',
    nth_error
      (columns
         (step (Translated 0 HttpNotOk)
            (run [AddClick 1; StartClick; MicSettled (MicOk mic0); SockOpen 0;
                  SockMessage 0 (transcript_message "zero")] initial))) 1
    = Some c' /\
    id c' = "1" /\ lines c' = [Js.Str "zero"].
Proof.
  split; [reflexivity | ].
  split.
  { apply (proj1 (translateText_fallback (Js.Str "hello") "en" "fr"
             (Body (Js.Obj [("translated_text", Js.Str "");
                            ("detail", Js.Num 1)])))).
    reflexivity. }
  split; [reflexivity | ].
  split.
  { apply (proj1 (proj2 (translateText_fallback (Js.Str "hello") "en" "fr"
             (Body (Js.Obj [("text", Js.Str "bonjour")]))))).
    reflexivity. }
  assert (Hk : nth_error
                 (tasks (run [AddClick 1; StartClick; MicSettled (MicOk mic0);
                              SockOpen 0;
                              SockMessage 0 (transcript_message "zero")]
                             initial)) 0
               = Some {| t_col := "1"; t_raw := Js.Str "zero";
                         t_src := "auto"; t_tgt := "en" |})
    by (vm_compute; reflexivity).
  assert (Hs : ~ In 0 (settled
                         (run [AddClick 1; StartClick; MicSettled (MicOk mic0);
                               SockOpen 0;
                               SockMessage 0 (transcript_message "zero")]
                              initial)))
    by (vm_compute; intros []).
  assert (Hc : nth_error
                 (columns
                    (run [AddClick 1; StartClick; MicSettled (MicOk mic0);
                          SockOpen 0;
                          SockMessage 0 (transcript_message "zero")]
                         initial)) 1
               = Some (newCol 1 no_over))
    by (vm_compute; reflexivity).
  destruct (proj2 (proj2 (proj2 (proj2 (proj2 (proj2
              (translateText_fallback (Js.Str "zero") "auto" "en"
                 HttpNotOk))))) _ _ _ Hk Hs) _ _ Hc)
    as (c' & Hc' & _ & Hsame).
  exists c'. split; [exact Hc' | ].
  destruct (Hsame eq_refl) as (Hid & _ & _ & _ & Hl & _).
  split; [exact Hid | exact (Hl eq_refl)].
Defined.

(** ** The updaters *)

Lemma map_id_on {A : Type} (f : A -> A) (l : list A) :
  (forall x, In x l -> f x = x) -> map f l = l.
Proof.
  induction l as [ | x l IH]; simpl; intros H; [reflexivity | ].
  rewrite H by now left. f_equal. apply IH. intros y Hy. apply H. now right.
Qed.

Lemma appendTranslated_absent (cid : string) (text : Js.val) (p : list Column) :
  (forall c, In c p -> id c <> cid) -> appendTranslated cid text p = p.
Proof.
  intros H. unfold appendTranslated. apply map_id_on. intros c Hc.
  destruct (String.eqb_spec (id c) cid) as [E | _]; [ | reflexivity].
  now apply H in Hc.
Qed.

Lemma removeColumn_gone (cid : string) (p : list Column) :
  forall c, In c (removeColumn cid p) -> id c <> cid.
Proof.
  intros c Hc. unfold removeColumn in Hc. apply filter_In in Hc.
  destruct Hc as [_ Hc]. destruct (String.eqb_spec (id c) cid); simpl in Hc;
    congruence.
Qed.

(** C2: a translation that settles for a column that has been removed
    changes nothing: the updater is the identity on a list from which the
    column was removed, and the continuation of the call leaves every
    remaining column, and the effects, as they were.  The continuation is
    a total function, so nothing is thrown. *)
Theorem settle_for_removed_column :
  (forall cid text p,
     appendTranslated cid text (removeColumn cid p) = removeColumn cid p) /\
  (forall st k r,
     (forall t, nth_error (tasks st) k = Some t ->
                forall c, In c (columns st) -> id c <> t_col t) ->
     columns (translated k r st) = columns st /\
     log (translated k r st) = log st /\
     wsRef (translated k r st) = wsRef st /\
     isLive (translated k r st) = isLive st).
Proof.
  split.
  - intros cid text p. apply appendTranslated_absent, removeColumn_gone.
  - intros st k r H. unfold translated.
    destruct (nth_error (tasks st) k) as [t | ] eqn:E; [ | tauto].
    destruct (existsb (Nat.eqb k) (settled st)); [tauto | ].
    simpl. split; [ | tauto].
    apply appendTranslated_absent. now apply H.
Qed.

Lemma settle_for_removed_column_witness :
  let st := removed_while_outstanding in
  option_map t_col (nth_error (tasks st) 6) = Some "1" /\
  map id (columns st) = ["original"; "2"] /\
  columns (translated 6 (reply "trois") st) = columns st.
Proof.
  split; [reflexivity | ].
  split; [reflexivity | ].
  apply (proj2 settle_for_removed_column removed_while_outstanding 6
               (reply "trois")).
  intros t E. vm_compute in E. injection E as <-.
  intros c Hc. vm_compute in Hc.
  destruct Hc as [<- | [<- | []]]; simpl; discriminate.
Defined.

(** *** Updaters that map over the columns keep ids and flags *)

Lemma filter_map_commute (q : Column -> bool) (f : Column -> Column)
      (p : list Column) :
  (forall c, q (f c) = q c) -> filter q (map f p) = map f (filter q p).
Proof.
  intros H. induction p as [ | c p IH]; simpl; [reflexivity | ].
  rewrite H. destruct (q c); simpl; now rewrite IH.
Qed.

Lemma filter_filter_length (q g : Column -> bool) (p : list Column) :
  List.length (filter q (filter g p)) <= List.length (filter q p).
Proof.
  induction p as [ | c p IH]; simpl; [lia | ].
  destruct (g c); simpl; destruct (q c); simpl; lia.
Qed.

Lemma op_map_id (op : Op) (c : Column) : id (op_map op c) = id c.
Proof.
  destruct op; simpl; try reflexivity;
    match goal with |- context [if ?b then _ else _] => destruct b end;
    reflexivity.
Qed.

Lemma op_map_isOriginal (op : Op) (c : Column) :
  isOriginal (op_map op c) = isOriginal c.
Proof.
  destruct op; simpl; try reflexivity;
    match goal with
    | |- context [if ?b then _ else _] => destruct b eqn:E
    end; simpl; rewrite ?E; reflexivity.
Qed.

Lemma apply_op_map (op : Op) (p : list Column) :
  match op with OpAdd _ | OpRemove _ => false | _ => true end = true ->
  apply_op op p = map (op_map op) p.
Proof. destruct op; simpl; intros H; try discriminate; reflexivity. Qed.

(** ** Changing a column's language *)

(** C8, counterexample: with one line in the original column, choosing a
    new language in its selector sets the language and keeps the line. *)
Lemma source_language_change_keeps_lines :
  one_line_page = [hello_column] /\
  isOriginal hello_column = true /\
  onLangChange hello_column "fr" one_line_page =
    [{| id := "original"; label := "Original"; lang := "fr";
        lines := [Js.Str "hello"]; isOriginal := true |}] /\
  map lines (onLangChange hello_column "fr" one_line_page) <> [[]].
Proof.
  repeat split. discriminate.
Qed.

(** C8, as the code has it: [changeLang] with a column's id sets that
    column's language and empties its lines, whatever its flag, and leaves
    every column with another id as it was; [changeSrcLang], which is what
    the selector of the original column calls, sets the language of the
    original column, keeps its lines, and leaves the other columns as they
    were.  Neither changes an id, a label, a flag or the number of
    columns. *)
Theorem language_change :
  forall (p : list Column) (l : string) (i : nat) (c : Column),
    nth_error p i = Some c ->
    (forall cid,
       exists c', nth_error (changeLang cid l p) i = Some c' /\
         id c' = id c /\ label c' = label c /\ isOriginal c' = isOriginal c /\
         (id c = cid -> lang c' = l /\ lines c' = []) /\
         (id c <> cid -> c' = c)) /\
    (exists c', nth_error (changeSrcLang l p) i = Some c' /\
         id c' = id c /\ label c' = label c /\ isOriginal c' = isOriginal c /\
         lines c' = lines c /\
         (isOriginal c = true -> lang c' = l) /\
         (isOriginal c = false -> c' = c)) /\
    (forall col, isOriginal col = false ->
       onLangChange col l p = changeLang (id col) l p) /\
    (forall col, isOriginal col = true ->
       onLangChange col l p = changeSrcLang l p).
Proof.
  intros p l i c H.
  split; [ | split; [ | split]].
  - intros cid. unfold changeLang. rewrite nth_error_map, H. simpl.
    eexists. split; [reflexivity | ].
    destruct (String.eqb_spec (id c) cid); simpl; repeat split;
      congruence.
  - unfold changeSrcLang. rewrite nth_error_map, H. simpl.
    eexists. split; [reflexivity | ].
    destruct (isOriginal c) eqn:E; simpl; rewrite ?E; repeat split;
      congruence.
  - intros col E. unfold onLangChange. now rewrite E.
  - intros col E. unfold onLangChange. now rewrite E.
Qed.

Lemma language_change_witness :
  let p := apply_ops [OpAdd 1; OpAppendOriginal (Js.Str "hello");
                      OpAppend "1" (Js.Str "hallo")] initial_columns in
  option_map lines (nth_error p 1) = Some [Js.Str "hallo"] /\
  option_map lines (nth_error (changeLang "1" "fr" p) 1) = Some [] /\
  option_map lang (nth_error (changeLang "1" "fr" p) 1) = Some "fr" /\
  nth_error (changeLang "1" "fr" p) 0 = nth_error p 0.
Proof.
  pose (p := apply_ops [OpAdd 1; OpAppendOriginal (Js.Str "hello");
                        OpAppend "1" (Js.Str "hallo")] initial_columns).
  assert (E : nth_error p 1 =
              Some {| id := "1"; label := "Transcript"; lang := "en";
                      lines := [Js.Str "hallo"]; isOriginal := false |})
    by reflexivity.
  destruct (proj1 (language_change p "fr" 1 E) "1")
    as (c' & Hc' & _ & _ & _ & Hset & _).
  destruct (Hset eq_refl) as [Hlang Hlines].
  split; [reflexivity | ].
  split; [fold p; rewrite Hc'; simpl; now rewrite Hlines | ].
  split; [fold p; rewrite Hc'; simpl; now rewrite Hlang | ].
  reflexivity.
Defined.

(** ** The original column and the number of targets *)

Lemma filter_swap (q g : Column -> bool) (p : list Column) :
  filter q (filter g p) = filter g (filter q p).
Proof.
  induction p as [ | c p IH]; simpl; [reflexivity | ].
  destruct (g c) eqn:G, (q c) eqn:Q; simpl; rewrite ?G, ?Q, IH; reflexivity.
Qed.

Lemma one_source_initial : one_source initial_columns.
Proof. eexists. repeat split. Qed.

Lemma one_source_map (f : Column -> Column) (p : list Column) :
  (forall c, id (f c) = id c) ->
  (forall c, isOriginal (f c) = isOriginal c) ->
  one_source p -> one_source (map f p).
Proof.
  intros Hid Hfl (c & Hs & Hc & Ho). exists (f c). unfold sources in *.
  rewrite filter_map_commute by exact Hfl. rewrite Hs. simpl.
  rewrite Hid, Hfl. auto.
Qed.

Lemma one_source_add (now : N) (p : list Column) :
  one_source p -> one_source (fst (addColumn now p)).
Proof.
  intros H. unfold addColumn.
  destruct (2 <=? List.length (targets p)); simpl; [exact H | ].
  destruct H as (c & Hs & Hc). exists c. unfold sources in *.
  rewrite filter_app, Hs. simpl. auto.
Qed.

Lemma one_source_remove (cid : string) (p : list Column) :
  cid <> "original" -> one_source p -> one_source (removeColumn cid p).
Proof.
  intros Hne (c & Hs & Hc & Ho). exists c. unfold sources, removeColumn in *.
  rewrite filter_swap, Hs. simpl.
  destruct (String.eqb_spec (id c) cid); [congruence | simpl; auto].
Qed.

Lemma one_source_apply_op (op : Op) (p : list Column) :
  removes_original op = false -> one_source p -> one_source (apply_op op p).
Proof.
  intros Hop H.
  destruct op;
    try (rewrite apply_op_map by reflexivity;
         apply one_source_map;
         [apply op_map_id | apply op_map_isOriginal | exact H]).
  - now apply one_source_add.
  - simpl in *. apply one_source_remove; [ | exact H].
    destruct (String.eqb_spec cid "original"); congruence.
Qed.

(** C9, counterexample: [removeColumn] called with the id of the original
    column removes it, and no column with the flag is left. *)
Lemma removeColumn_original_removes_source :
  apply_ops [OpRemove "original"] initial_columns = [] /\
  sources (apply_ops [OpRemove "original"] initial_columns) = [] /\
  List.length (sources (apply_ops [OpRemove "original"] initial_columns)) <> 1.
Proof. repeat split. discriminate. Qed.

(** C9, as the code has it: in every column list reached from the initial
    one by the operations, [removeColumn] being called with any id but that
    of the original column, exactly one column carries the flag; it is the
    column with id ["original"], so it was never removed. *)
Theorem one_original_column :
  forall ops : list Op,
    forallb (fun op => negb (removes_original op)) ops = true ->
    exists c,
      sources (apply_ops ops initial_columns) = [c] /\
      id c = "original" /\ isOriginal c = true.
Proof.
  intros ops. unfold apply_ops.
  generalize one_source_initial. generalize initial_columns as p.
  induction ops as [ | op ops IH]; simpl; intros p Hp Hops; [exact Hp | ].
  apply andb_prop in Hops. destruct Hops as [Hop Hops].
  apply IH; [ | exact Hops].
  apply one_source_apply_op; [ | exact Hp].
  now destruct (removes_original op).
Qed.

Lemma one_original_column_witness :
  exists c,
    sources (apply_ops [OpAdd 1; OpAppendOriginal (Js.Str "hello");
                        OpAppend "1" (Js.Str "hallo"); OpRemove "1";
                        OpSetSrcLang "fr"; OpClear; OpAdd 7;
                        OpDeleteLine "original" 0]
                       initial_columns) = [c] /\
    id c = "original" /\ isOriginal c = true.
Proof.
  apply (one_original_column
           [OpAdd 1; OpAppendOriginal (Js.Str "hello");
            OpAppend "1" (Js.Str "hallo"); OpRemove "1";
            OpSetSrcLang "fr"; OpClear; OpAdd 7;
            OpDeleteLine "original" 0]).
  reflexivity.
Defined.

Lemma targets_apply_op (op : Op) (p : list Column) :
  List.length (targets p) <= 2 -> List.length (targets (apply_op op p)) <= 2.
Proof.
  intros H.
  destruct op;
    try (rewrite apply_op_map by reflexivity;
         unfold targets in *;
         rewrite filter_map_commute
           by (intros c; now rewrite op_map_isOriginal);
         now rewrite length_map).
  - simpl. unfold addColumn.
    destruct (Nat.leb_spec 2 (List.length (targets p))); simpl; [exact H | ].
    unfold targets in *. rewrite filter_app, length_app. simpl. lia.
  - simpl. unfold targets, removeColumn.
    etransitivity; [apply filter_filter_length | exact H].
Qed.

Lemma targets_apply_ops (ops : list Op) (p : list Column) :
  List.length (targets p) <= 2 ->
  List.length (targets (apply_ops ops p)) <= 2.
Proof.
  unfold apply_ops. revert p.
  induction ops as [ | op ops IH]; simpl; intros p H; [exact H | ].
  apply IH. now apply targets_apply_op.
Qed.

(** *** What each event does to the columns *)

Arguments closeSocket : simpl never.
Arguments openSocket : simpl never.
Arguments stopLive_with : simpl never.
Arguments startLive_begin_with : simpl never.
Arguments startLive_resume : simpl never.

Lemma columns_closeSocket (st : State) : columns (closeSocket st) = columns st.
Proof. unfold closeSocket. destruct (wsRef st); reflexivity. Qed.

Lemma columns_stopLive_with (seen : bool) (st : State) :
  columns (stopLive_with seen st) = columns st.
Proof.
  unfold stopLive_with, closeSocket. destruct seen; simpl; [ | reflexivity].
  destruct (wsRef st); simpl; destruct (streamRef st); reflexivity.
Qed.

Lemma columns_openSocket (sl : string) (st : State) :
  columns (openSocket sl st) = columns st.
Proof. unfold openSocket. exact (columns_closeSocket st). Qed.

Lemma columns_startLive_begin_with (b : bool) (cols : list Column) (st : State) :
  columns (startLive_begin_with b cols st) = columns st.
Proof.
  unfold startLive_begin_with. destruct b; [reflexivity | ].
  exact (columns_openSocket _ _).
Qed.

Lemma columns_startLive_resume (o : MicOutcome) (st : State) :
  columns (startLive_resume o st) = columns st.
Proof.
  unfold startLive_resume, attachMic. destruct o; [reflexivity | ].
  exact (columns_closeSocket _).
Qed.

Lemma columns_send_slices (fs : list (list byte)) (st : State) :
  columns (fold_left send_slice fs st) = columns st.
Proof.
  revert st. induction fs as [ | f fs IH]; simpl; intros st; [reflexivity | ].
  rewrite IH. unfold send_slice. destruct (ws_ready st); reflexivity.
Qed.

Lemma step_columns (e : Event) (st : State) :
  exists ops, columns (step e st) = apply_ops ops (columns st).
Proof.
  destruct e; cbn [step].
  - exists []. destruct (isLive st || isProcessing st); [reflexivity | ].
    apply columns_startLive_begin_with.
  - exists []. destruct (awaitingMic st); [reflexivity | ].
    exact (columns_startLive_resume _ _).
  - exists []. destruct (isLive st) eqn:E; [ | reflexivity].
    apply columns_stopLive_with.
  - exists []. destruct (timers st) as [ | [b cols] rest]; [reflexivity | ].
    exact (columns_startLive_begin_with _ _ _).
  - exists []. destruct (nth_error (socks st) sid) as [s | ]; [ | reflexivity].
    destruct (readyState s =? CONNECTING); reflexivity.
  - exists []. destruct (nth_error (socks st) sid) as [s | ]; [ | reflexivity].
    destruct (readyState s =? OPEN); reflexivity.
  - exists []. destruct (nth_error (socks st) sid) as [s | ]; [ | reflexivity].
    destruct (readyState s =? CLOSED); reflexivity.
  - exists []. destruct (nth_error (socks st) sid) as [s | ]; reflexivity.
  - destruct (nth_error (socks st) sid) as [s | ]; [ | now exists []].
    destruct (readyState s =? OPEN); [ | now exists []].
    unfold ws_onmessage.
    destruct data as [m | ]; [ | now exists []].
    destruct (Js.get m "transcript") as [t | ]; [ | now exists []].
    match goal with |- context [negb ?b] => destruct b end; simpl;
      [ | now exists []].
    eexists [OpAppendOriginal _]. reflexivity.
  - unfold translated.
    destruct (nth_error (tasks st) k) as [t | ]; [ | now exists []].
    destruct (existsb (Nat.eqb k) (settled st)); [now exists [] | ].
    eexists [OpAppend _ _]. reflexivity.
  - exists []. apply columns_send_slices.
  - exists [OpAdd now]. unfold addColumn_click, apply_ops.
    cbn [fold_left apply_op]. unfold addColumn.
    destruct (2 <=? List.length (targets (columns st))); reflexivity.
  - destruct (nth_error (columns st) i) as [col | ]; [ | now exists []].
    destruct (isOriginal col); [now exists [] | ].
    now exists [OpRemove (id col)].
  - destruct (nth_error (columns st) i) as [col | ]; [ | now exists []].
    unfold lang_select. destruct (isOriginal col).
    + exists [OpSetSrcLang l]. unfold changeSrcLang_handler.
      exact (columns_stopLive_with _ _).
    + now exists [OpSetLang (id col) l].
  - now exists [OpClear].
  - destruct (nth_error (columns st) i) as [col | ]; [ | now exists []].
    now exists [OpDeleteLine (id col) lineIndex].
Qed.

Lemma run_columns (evs : list Event) (st : State) :
  exists ops, columns (run evs st) = apply_ops ops (columns st).
Proof.
  unfold run. revert st.
  induction evs as [ | e evs IH]; simpl; intros st; [now exists [] | ].
  destruct (IH (step e st)) as [ops2 H2].
  destruct (step_columns e st) as [ops1 H1].
  exists (ops1 ++ ops2). rewrite H2, H1. unfold apply_ops.
  now rewrite fold_left_app.
Qed.

(** C10: in every column list reached from the initial one by the
    operations, and in every state of the page, at most two columns are
    targets; [addColumn] with two targets present shows its alert and
    leaves the list as it is. *)
Theorem at_most_two_targets :
  (forall ops : list Op,
     List.length (targets (apply_ops ops initial_columns)) <= 2) /\
  (forall evs : list Event,
     List.length (targets (columns (run evs initial))) <= 2) /\
  (forall (now : N) (p : list Column),
     2 <= List.length (targets p) -> addColumn now p = (p, true)) /\
  (forall (now : N) (st : State),
     2 <= List.length (targets (columns st)) ->
     columns (addColumn_click now st) = columns st).
Proof.
  assert (H0 : List.length (targets initial_columns) <= 2) by (simpl; lia).
  split; [ | split; [ | split]].
  - intros ops. now apply targets_apply_ops.
  - intros evs. destruct (run_columns evs initial) as [ops ->].
    now apply targets_apply_ops.
  - intros now p H. unfold addColumn.
    destruct (Nat.leb_spec 2 (List.length (targets p))); [reflexivity | lia].
  - intros now st H. unfold addColumn_click, addColumn.
    destruct (Nat.leb_spec 2 (List.length (targets (columns st))));
      [reflexivity | lia].
Qed.

Lemma at_most_two_targets_witness :
  let p := apply_ops [OpAdd 1; OpAdd 2] initial_columns in
  2 <= List.length (targets p) /\ addColumn 3 p = (p, true).
Proof.
  split; [simpl; lia | ].
  apply (proj1 (proj2 (proj2 at_most_two_targets)) 3%N
               (apply_ops [OpAdd 1; OpAdd 2] initial_columns)).
  simpl. lia.
Defined.

(** ** Wire chunks *)

Lemma length_slice (b e : nat) (pcm : list byte) :
  List.length (slice b e pcm) = Nat.min (e - b) (List.length pcm - b).
Proof. unfold slice. now rewrite length_firstn, length_skipn. Qed.

(** The [k]-th slice taken from offset [i] on covers the offsets from
    [i + 320 * k], which lies inside the buffer. *)
Lemma slices_from_nth (pcm : list byte) (i k : nat) (f : list byte) :
  nth_error (slices_from pcm i) k = Some f ->
  f = slice (i + 320 * k) (i + 320 * k + 320) pcm /\
  i + 320 * k < List.length pcm.
Proof.
  revert k f. funelim (slices_from pcm i); intros k f Hk.
  - destruct k as [ | k]; cbn [nth_error] in Hk.
    + injection Hk as <-. rewrite Nat.mul_0_r, Nat.add_0_r. auto.
    + match goal with
      | IH : forall k f, nth_error (slices_from _ _) k = Some f -> _ |- _ =>
          apply IH in Hk
      end.
      replace (i + 320 * S k) with (i + 320 + 320 * k) by lia. exact Hk.
  - destruct k; discriminate.
Qed.

Lemma slices_from_concat (pcm : list byte) (i : nat) :
  List.concat (slices_from pcm i) = skipn i pcm.
Proof.
  funelim (slices_from pcm i); cbn [List.concat].
  - match goal with IH : List.concat _ = _ |- _ => rewrite IH end.
    unfold slice. replace (i + 320 - i) with 320 by lia.
    rewrite (Nat.add_comm i 320), <- skipn_skipn.
    apply firstn_skipn.
  - symmetry. apply skipn_all2. lia.
Qed.

Lemma send_slices_log (fs : list (list byte)) (st : State) :
  log (fold_left send_slice fs st) =
  log st ++ match ws_ready st with
            | Some sid => map (WsSend sid) fs
            | None => []
            end.
Proof.
  revert st. induction fs as [ | f fs IH]; intros st; cbn [fold_left map].
  - destruct (ws_ready st); now rewrite app_nil_r.
  - rewrite IH. unfold send_slice.
    destruct (ws_ready st) as [sid | ] eqn:E.
    + replace (ws_ready (emit [WsSend sid f] st)) with (Some sid)
        by (symmetry; exact E).
      cbn [log emit set_log]. now rewrite <- app_assoc.
    + now rewrite E.
Qed.

(** C4, counterexample: of the 8192 bytes of a block taken at 16 kHz the
    loop makes 26 slices, the last of 192 bytes, and sends it like the
    others. *)
Lemma last_wire_chunk_is_short :
  List.length block_16k = 8192 /\
  map (@List.length byte) (slices block_16k) = repeat 320 25 ++ [192] /\
  last (log (onaudioprocess block_16k live_page)) (Alert "")
    = WsSend 0 (repeat Byte.x00 192) /\
  ~ Forall (fun f => List.length f = 320) (slices block_16k).
Proof.
  split; [now vm_compute | ].
  split; [now vm_compute | ].
  split; [now vm_compute | ].
  intros H. rewrite Forall_forall in H.
  specialize (H (repeat Byte.x00 192)).
  assert (In (repeat Byte.x00 192) (slices block_16k)) as Hin.
  { apply nth_error_In with (n := 25). now vm_compute. }
  apply H in Hin. vm_compute in Hin. discriminate.
Qed.

(** C4, as the code has it: the loop slices the buffer from offset 0 in
    steps of 320, in increasing order of offset, and the slices put end to
    end are the buffer; every slice has between 1 and 320 bytes, every
    slice but the last has exactly 320, and when the length of the buffer
    is a multiple of 320 so has the last; each slice is sent, in that
    order, on the socket of [wsRef] when that socket is open, and none is
    sent otherwise. *)
Theorem wire_chunks :
  forall pcm : list byte,
    List.concat (slices pcm) = pcm /\
    (forall k f,
       nth_error (slices pcm) k = Some f ->
       f = slice (320 * k) (320 * k + 320) pcm /\
       1 <= List.length f <= 320 /\
       (S k < List.length (slices pcm) -> List.length f = 320) /\
       (List.length pcm mod 320 = 0 -> List.length f = 320)) /\
    (forall st,
       log (onaudioprocess pcm st) =
       log st ++ match ws_ready st with
                 | Some sid => map (WsSend sid) (slices pcm)
                 | None => []
                 end).
Proof.
  intros pcm. split; [ | split].
  - unfold slices. now rewrite slices_from_concat.
  - intros k f Hk. unfold slices in *.
    destruct (slices_from_nth _ _ _ Hk) as [Hf Hlt].
    rewrite Nat.add_0_l in Hf, Hlt.
    assert (Hlen : List.length f =
                   Nat.min 320 (List.length pcm - 320 * k)).
    { rewrite Hf, length_slice. f_equal. lia. }
    split; [exact Hf | ]. split; [lia | ]. split.
    + intros HS.
      destruct (nth_error (slices_from pcm 0) (S k)) as [g | ] eqn:Eg.
      * apply slices_from_nth in Eg. lia.
      * apply nth_error_None in Eg. lia.
    + intros Hmod. apply Nat.Div0.div_exact in Hmod.
      remember (List.length pcm / 320) as q. nia.
  - intros st. apply send_slices_log.
Qed.

Lemma wire_chunks_witness :
  let pcm := repeat Byte.x01 640 in
  nth_error (slices pcm) 1 = Some (repeat Byte.x01 320) /\
  List.length pcm mod 320 = 0 /\
  List.length (repeat Byte.x01 320) = 320.
Proof.
  assert (E : nth_error (slices (repeat Byte.x01 640)) 1
              = Some (repeat Byte.x01 320)) by now vm_compute.
  split; [exact E | ].
  split; [now vm_compute | ].
  apply (proj2 (proj2 (proj2
           (proj1 (proj2 (wire_chunks (repeat Byte.x01 640))) 1
                  (repeat Byte.x01 320) E)))).
  now vm_compute.
Defined.

(** ** Inbound messages *)

Lemma carries_fragment_not_passed_over (data : option Js.val) :
  carries_fragment data = true -> passed_over data = false.
Proof.
  destruct data as [[ | | | | | | fields] | ]; simpl; try discriminate.
  destruct (Js.lookup "transcript" fields) as [ | | | | s | | tfields];
    simpl; try discriminate.
  - now destruct (String.eqb s "").
  - destruct (Js.lookup "text" tfields) as [ | | | | s | | ];
      simpl; try discriminate.
    intros ->. reflexivity.
Qed.

(** A message that is not passed over puts its fragment on the original
    column. *)
Lemma ws_onmessage_accepts (sl : string) (data : option Js.val) (st : State) :
  passed_over data = false ->
  exists raw, Js.truthy raw = true /\
    columns (ws_onmessage sl data st) = appendOriginal raw (columns st).
Proof.
  destruct data as [[ | | | | | | fields] | ]; simpl; try discriminate.
  unfold Js.get_opt.
  destruct (Js.lookup "transcript" fields) as [ | | b | z | s | | tfields];
    simpl; try discriminate; intros H.
  - exists (Js.Bool b). apply negb_false_iff in H. subst b. auto.
  - exists (Js.Num z). simpl. rewrite H. auto.
  - exists (Js.Str s). simpl. rewrite H. auto.
  - apply negb_false_iff in H. rewrite H. simpl. eauto.
Qed.

(** C5, counterexample: a transcript that is the number 5 is neither a
    non-empty string nor an object with a text, and the handler appends it
    to the original column. *)
Lemma number_transcript_is_appended :
  carries_fragment number_message = false /\
  map lines (columns live_page) = [[]] /\
  map lines (columns (ws_onmessage "auto" number_message live_page))
    = [[Js.Num 5]] /\
  map lines (columns (ws_onmessage "auto" number_message live_page))
    <> map lines (columns live_page).
Proof. repeat split. discriminate. Qed.

(** C5, as the code has it: a message that does not parse, that is not an
    object, or whose transcript is missing or falsy (null, the empty
    string, zero, false), or is an array, or is an object whose text is
    missing or falsy, leaves the whole state as it was: no column's lines,
    no translation call, no effect, and the socket and capture untouched.
    The handler is total, so nothing escapes it. *)
Theorem ws_onmessage_passes_over :
  forall (sl : string) (data : option Js.val) (st : State),
    passed_over data = true -> ws_onmessage sl data st = st.
Proof.
  intros sl data st.
  destruct data as [[ | | | | | | fields] | ]; simpl; try reflexivity.
  unfold Js.get_opt.
  destruct (Js.lookup "transcript" fields) as [ | | b | z | s | | tfields];
    simpl; try reflexivity; intros H.
  - apply negb_true_iff in H. now subst b.
  - now rewrite H.
  - now rewrite H.
  - apply negb_true_iff in H. now rewrite H.
Qed.

Lemma ws_onmessage_passes_over_witness :
  Forall (fun data => passed_over data = true /\
                      ws_onmessage "auto" data live_page = live_page)
    [ None;
      Some Js.Null;
      Some (Js.Obj []);
      Some (Js.Obj [("transcript", Js.Str "")]);
      Some (Js.Obj [("transcript", Js.Null)]);
      Some (Js.Obj [("transcript", Js.Arr [Js.Str "hello"])]);
      Some (Js.Obj [("transcript", Js.Num 0)]);
      Some (Js.Obj [("transcript", Js.Bool false)]);
      Some (Js.Obj [("transcript", Js.Obj [("text", Js.Str "")])]);
      Some (Js.Obj [("transcript", Js.Obj [("words", Js.Num 3)])]) ].
Proof.
  repeat (apply Forall_cons;
          [split; [reflexivity
                  | apply ws_onmessage_passes_over; reflexivity] | ]).
  apply Forall_nil.
Defined.

(** ** Order of the translated lines *)

Lemma set_lines_same (c : Column) : set_lines (lines c ++ []) c = c.
Proof. destruct c. unfold set_lines. simpl. now rewrite app_nil_r. Qed.




(** ** Stop and start *)

(** A second [stopLive] right after a first changes nothing, be it
    the [stopLive] of the new render (which returns at its guard) or the
    same closure run again (whose body finds [wsRef] and [streamRef]
    already null); the Stop button likewise.  The [startLive] of a render
    in which [isLive] holds returns at its guard: the state, with its
    sockets, [wsRef], [streamRef] and effects, is the one before, so no
    connection is opened. *)
Theorem stop_twice_start_twice :
  forall st : State,
    stopLive (stopLive st) = stopLive st /\
    (forall seen, stopLive_with seen (stopLive_with seen st)
                  = stopLive_with seen st) /\
    step StopClick (step StopClick st) = step StopClick st /\
    (isLive st = false -> stopLive st = st) /\
    (isLive st = true ->
     forall o,
       startLive o st = st /\
       startLive_begin_with (isLive st) (columns st) st = st /\
       step StartClick st = st).
Proof.
  intros st. unfold stopLive. cbn [step].
  unfold stopLive, stopLive_with, closeSocket, startLive,
    startLive_begin_with.
  destruct st as [live conn processing cols ws stream ss ts done waiting tm lg].
  cbn. split; [ | split; [ | split; [ | split]]].
  - destruct live; [ | reflexivity]. cbn.
    destruct ws, stream; reflexivity.
  - intros [ | ]; [ | reflexivity]. cbn.
    destruct ws, stream; reflexivity.
  - destruct live; [ | reflexivity]. cbn.
    destruct ws, stream; reflexivity.
  - now intros ->.
  - intros -> o. cbn. auto.
Qed.

Lemma stop_twice_start_twice_witness :
  isLive live_page = true /\
  startLive (MicOk mic0) live_page = live_page /\
  isLive (stopLive live_page) = false /\
  stopLive (stopLive live_page) = stopLive live_page /\
  isLive initial = false /\
  stopLive initial = initial.
Proof.
  split; [reflexivity | ].
  split.
  - apply (proj1 (proj2 (proj2 (proj2 (proj2
             (stop_twice_start_twice live_page)))) eq_refl (MicOk mic0))).
  - split; [reflexivity | ].
    split; [exact (proj1 (stop_twice_start_twice live_page)) | ].
    split; [reflexivity | ].
    apply (proj1 (proj2 (proj2 (proj2 (stop_twice_start_twice initial))))).
    reflexivity.
Defined.

(** C6: the [startLive] that [changeSrcLang] hands to [setTimeout] is the
    one of the render in which the language was changed, and its guard
    reads the [isLive] of that render.  On [started_before_timer] a capture
    is running on socket 0 with the graph [mic0], and the Start button
    changes nothing; when the timer fires, that [startLive] passes its
    guard, closes socket 0 and opens a second connection, socket 1, for the
    language ["auto"] of the columns it closed over; when its [attachMic]
    is through, [streamRef] holds the second graph, and a later Stop
    releases that one only: the tracks of [mic0] are never stopped. *)
Theorem stale_startLive_opens_second_connection :
  isLive started_before_timer = true /\
  streamRef started_before_timer = Some mic0 /\
  wsRef started_before_timer = Some 0 /\
  map readyState (socks started_before_timer) = [OPEN] /\
  log started_before_timer = [WsNew 0 "fr"] /\
  step StartClick started_before_timer = started_before_timer /\
  log (step TimerFired started_before_timer)
    = [WsNew 0 "fr"; WsClose 0; WsNew 1 "auto"] /\
  wsRef (step TimerFired started_before_timer) = Some 1 /\
  map readyState (socks (step TimerFired started_before_timer))
    = [CLOSING; CONNECTING] /\
  streamRef (run [TimerFired; MicSettled (MicOk mic1)] started_before_timer)
    = Some mic1 /\
  log (run [TimerFired; MicSettled (MicOk mic1); SockOpen 1; StopClick]
           started_before_timer)
    = [WsNew 0 "fr"; WsClose 0; WsNew 1 "auto"; WsClose 1;
       ProcDisconnect mic1; CtxClose mic1; TracksStop mic1].
Proof. vm_compute. repeat split. Qed.

(** ** A start that fails *)

Lemma nth_error_alter_nth {A : Type} (f : A -> A) (l : list A) :
  forall n m,
    nth_error (alter_nth f n l) m =
    if m =? n then option_map f (nth_error l m) else nth_error l m.
Proof.
  induction l as [ | x l IH]; intros n m.
  - destruct n, m; simpl; try reflexivity. now destruct (m =? n).
  - destruct n as [ | n], m as [ | m]; simpl; try reflexivity. apply IH.
Qed.

Lemma length_alter_nth {A : Type} (f : A -> A) (l : list A) :
  forall n, List.length (alter_nth f n l) = List.length l.
Proof.
  induction l as [ | x l IH]; intros [ | n]; simpl; try reflexivity.
  now rewrite IH.
Qed.

Lemma closing_closed (s : Socket) : CLOSING <= readyState (closing s).
Proof.
  unfold closing. destruct (Nat.ltb_spec (readyState s) CLOSING); simpl.
  - apply Nat.le_refl.
  - assumption.
Qed.

Lemma all_closed_open_is_current (st : State) :
  all_closed st -> open_is_current st.
Proof. intros H sid s Hs Hlt. apply H in Hs. lia. Qed.

Lemma closeSocket_all_closed (st : State) :
  open_is_current st ->
  all_closed (closeSocket st) /\ wsRef (closeSocket st) = None.
Proof.
  intros H. unfold closeSocket, all_closed.
  destruct (wsRef st) as [cur | ] eqn:E; cbn.
  - split; [ | reflexivity]. intros sid s.
    rewrite nth_error_alter_nth.
    destruct (Nat.eqb_spec sid cur) as [-> | Hne].
    + destruct (nth_error (socks st) cur); simpl; [ | discriminate].
      intros [= <-]. apply closing_closed.
    + intros Hs. destruct (Nat.lt_ge_cases (readyState s) CLOSING) as [Hlt | Hge];
        [ | exact Hge].
      specialize (H _ _ Hs Hlt). congruence.
  - split; [ | exact E]. intros sid s Hs.
    destruct (Nat.lt_ge_cases (readyState s) CLOSING) as [Hlt | Hge];
      [ | exact Hge].
    specialize (H _ _ Hs Hlt). congruence.
Qed.

Lemma openSocket_open_is_current (sl : string) (st : State) :
  open_is_current st -> open_is_current (openSocket sl st).
Proof.
  intros H. destruct (closeSocket_all_closed H) as [Hc _].
  unfold openSocket, open_is_current. cbn [socks wsRef set_wsRef emit set_log set_socks].
  intros sid s Hs Hlt. f_equal.
  destruct (Nat.lt_ge_cases sid (List.length (socks (closeSocket st))))
    as [Hin | Hout].
  - rewrite nth_error_app1 in Hs by exact Hin. apply Hc in Hs. lia.
  - assert (Hlen : nth_error (socks (closeSocket st) ++
                                [{| srcLang := sl; readyState := CONNECTING |}])
                             sid <> None) by congruence.
    apply nth_error_Some in Hlen. rewrite length_app in Hlen.
    cbn [List.length] in Hlen. lia.
Qed.

Lemma open_is_current_frame (st st' : State) :
  socks st' = socks st -> wsRef st' = wsRef st ->
  open_is_current st -> open_is_current st'.
Proof.
  intros Hs Hw H sid s. rewrite Hs, Hw. apply H.
Qed.

Lemma stopLive_with_open_is_current (seen : bool) (st : State) :
  open_is_current st -> open_is_current (stopLive_with seen st).
Proof.
  intros H. unfold stopLive_with. destruct seen; cbn [negb]; [ | exact H].
  assert (H1 : open_is_current (closeSocket (set_isLive false st))).
  { apply all_closed_open_is_current, closeSocket_all_closed.
    exact (open_is_current_frame (set_isLive false st) eq_refl eq_refl H). }
  destruct (streamRef (closeSocket (set_isLive false st))); [ | exact H1].
  exact (open_is_current_frame _ eq_refl eq_refl H1).
Qed.

Lemma startLive_begin_with_open_is_current
      (seen : bool) (cols : list Column) (st : State) :
  open_is_current st -> open_is_current (startLive_begin_with seen cols st).
Proof.
  intros H. unfold startLive_begin_with. destruct seen; [exact H | ].
  refine (open_is_current_frame _ eq_refl eq_refl _).
  apply openSocket_open_is_current.
  exact (open_is_current_frame (set_isProcessing true st) eq_refl eq_refl H).
Qed.

Lemma startLive_resume_open_is_current (o : MicOutcome) (st : State) :
  open_is_current st -> open_is_current (startLive_resume o st).
Proof.
  intros H. unfold startLive_resume, attachMic.
  refine (open_is_current_frame _ eq_refl eq_refl _).
  destruct o as [c | msg].
  - exact (open_is_current_frame _ eq_refl eq_refl H).
  - apply all_closed_open_is_current, closeSocket_all_closed.
    exact (open_is_current_frame (emit _ st) eq_refl eq_refl H).
Qed.

Lemma send_slices_sockets (fs : list (list byte)) (st : State) :
  socks (fold_left send_slice fs st) = socks st /\
  wsRef (fold_left send_slice fs st) = wsRef st.
Proof.
  revert st. induction fs as [ | f fs IH]; intros st; cbn [fold_left];
    [auto | ].
  destruct (IH (send_slice st f)) as [-> ->].
  unfold send_slice. destruct (ws_ready st); auto.
Qed.

Lemma ws_onmessage_sockets (sl : string) (data : option Js.val) (st : State) :
  socks (ws_onmessage sl data st) = socks st /\
  wsRef (ws_onmessage sl data st) = wsRef st.
Proof.
  unfold ws_onmessage. destruct data as [m | ]; [ | auto].
  destruct (Js.get m "transcript") as [t | ]; [ | auto].
  match goal with |- context [negb ?b] => destruct b end; cbn; auto.
Qed.

Lemma translated_sockets (k : nat) (r : FetchResult) (st : State) :
  socks (translated k r st) = socks st /\
  wsRef (translated k r st) = wsRef st.
Proof.
  unfold translated. destruct (nth_error (tasks st) k); [ | auto].
  destruct (existsb (Nat.eqb k) (settled st)); auto.
Qed.

Lemma step_open_is_current (e : Event) (st : State) :
  open_is_current st -> open_is_current (step e st).
Proof.
  intros H. destruct e; cbn [step].
  - destruct (isLive st || isProcessing st); [exact H | ].
    now apply startLive_begin_with_open_is_current.
  - destruct (awaitingMic st); [exact H | ].
    refine (open_is_current_frame _ eq_refl eq_refl _).
    now apply startLive_resume_open_is_current.
  - destruct (isLive st); [ | exact H].
    now apply stopLive_with_open_is_current.
  - destruct (timers st) as [ | [b cols] rest]; [exact H | ].
    apply startLive_begin_with_open_is_current.
    exact (open_is_current_frame (set_timers rest st) eq_refl eq_refl H).
  - destruct (nth_error (socks st) sid) as [s | ] eqn:Es; [ | exact H].
    destruct (Nat.eqb_spec (readyState s) CONNECTING) as [E0 | _]; [ | exact H].
    assert (Hcur : wsRef st = Some sid).
    { apply (H _ _ Es). rewrite E0. unfold CONNECTING, CLOSING. lia. }
    intros sid' s'. cbn. rewrite nth_error_alter_nth.
    destruct (Nat.eqb_spec sid' sid) as [-> | _]; [now intros | apply H].
  - destruct (nth_error (socks st) sid) as [s | ] eqn:Es; [ | exact H].
    destruct (readyState s =? OPEN); [ | exact H].
    intros sid' s'. cbn. rewrite nth_error_alter_nth.
    destruct (Nat.eqb_spec sid' sid) as [-> | _]; [ | apply H].
    rewrite Es. cbn. intros [= <-]. cbn. unfold CLOSING. lia.
  - destruct (nth_error (socks st) sid) as [s | ] eqn:Es; [ | exact H].
    destruct (readyState s =? CLOSED); [exact H | ].
    intros sid' s'. cbn. rewrite nth_error_alter_nth.
    destruct (Nat.eqb_spec sid' sid) as [-> | _]; [ | apply H].
    rewrite Es. cbn. intros [= <-]. cbn. unfold CLOSED, CLOSING. lia.
  - destruct (nth_error (socks st) sid); [ | exact H].
    unfold ws_onerror. apply stopLive_with_open_is_current.
    exact (open_is_current_frame (set_wsConnected false st) eq_refl eq_refl H).
  - destruct (nth_error (socks st) sid) as [s | ]; [ | exact H].
    destruct (readyState s =? OPEN); [ | exact H].
    destruct (ws_onmessage_sockets (srcLang s) data st) as [E1 E2].
    exact (open_is_current_frame _ E1 E2 H).
  - destruct (translated_sockets k r st) as [E1 E2].
    exact (open_is_current_frame _ E1 E2 H).
  - destruct (send_slices_sockets (slices pcm) st) as [E1 E2].
    exact (open_is_current_frame _ E1 E2 H).
  - unfold addColumn_click. destruct (addColumn now (columns st)) as [p [ | ]];
      exact (open_is_current_frame _ eq_refl eq_refl H).
  - destruct (nth_error (columns st) i) as [col | ]; [ | exact H].
    destruct (isOriginal col); [exact H | ].
    exact (open_is_current_frame _ eq_refl eq_refl H).
  - destruct (nth_error (columns st) i) as [col | ]; [ | exact H].
    unfold lang_select. destruct (isOriginal col).
    + unfold changeSrcLang_handler.
      refine (open_is_current_frame _ eq_refl eq_refl _).
      apply stopLive_with_open_is_current.
      exact (open_is_current_frame (set_columns _ st) eq_refl eq_refl H).
    + exact (open_is_current_frame _ eq_refl eq_refl H).
  - exact (open_is_current_frame _ eq_refl eq_refl H).
  - destruct (nth_error (columns st) i) as [col | ]; [ | exact H].
    exact (open_is_current_frame _ eq_refl eq_refl H).
Qed.

Lemma run_open_is_current (evs : list Event) (st : State) :
  open_is_current st -> open_is_current (run evs st).
Proof.
  unfold run. revert st.
  induction evs as [ | e evs IH]; simpl; intros st H; [exact H | ].
  apply IH. now apply step_open_is_current.
Qed.

Lemma initial_open_is_current : open_is_current initial.
Proof. intros [ | sid] s Hs; discriminate. Qed.

Lemma closeSocket_keeps (st : State) :
  isLive (closeSocket st) = isLive st /\
  streamRef (closeSocket st) = streamRef st /\
  isProcessing (closeSocket st) = isProcessing st /\
  wsConnected (closeSocket st) = false /\
  (forall e, In e (log st) -> In e (log (closeSocket st))).
Proof.
  unfold closeSocket. destruct (wsRef st); cbn; repeat split; auto.
  intros e He. apply in_or_app. now left.
Qed.






(** ** The original column on the page *)

Lemma date_string_not_original (now : N) : date_string now <> "original".
Proof.
  unfold date_string, NilZero.string_of_uint.
  destruct (N.to_uint now); cbn; discriminate.
Qed.

Lemma targets_named_apply_op (op : Op) (p : list Column) :
  targets_named p -> targets_named (apply_op op p).
Proof.
  intros H. unfold targets_named in *.
  destruct op;
    try (rewrite apply_op_map by reflexivity;
         intros c Hc; apply in_map_iff in Hc; destruct Hc as (c0 & <- & Hc0);
         rewrite op_map_id, op_map_isOriginal; now apply H).
  - cbn [apply_op]. unfold addColumn.
    destruct (2 <=? List.length (targets p)); cbn [fst]; [exact H | ].
    intros c Hc. apply in_app_iff in Hc. destruct Hc as [Hc | [<- | []]].
    + now apply H.
    + intros _. apply date_string_not_original.
  - cbn [apply_op]. unfold removeColumn. intros c Hc.
    apply filter_In in Hc. now apply H.
Qed.

(** The operations behind an event never ask to remove the original
    column: the Remove button is on the other columns only, and theirs are
    other ids. *)
Lemma step_columns_keep_original (e : Event) (st : State) :
  targets_named (columns st) ->
  exists ops,
    columns (step e st) = apply_ops ops (columns st) /\
    forallb (fun op => negb (removes_original op)) ops = true.
Proof.
  intros H. destruct e; cbn [step].
  - exists []. split; [ | reflexivity].
    destruct (isLive st || isProcessing st); [reflexivity | ].
    apply columns_startLive_begin_with.
  - exists []. split; [ | reflexivity].
    destruct (awaitingMic st); [reflexivity | ].
    exact (columns_startLive_resume _ _).
  - exists []. split; [ | reflexivity].
    destruct (isLive st); [ | reflexivity]. apply columns_stopLive_with.
  - exists []. split; [ | reflexivity].
    destruct (timers st) as [ | [b cols] rest]; [reflexivity | ].
    exact (columns_startLive_begin_with _ _ _).
  - exists []. split; [ | reflexivity].
    destruct (nth_error (socks st) sid) as [s | ]; [ | reflexivity].
    destruct (readyState s =? CONNECTING); reflexivity.
  - exists []. split; [ | reflexivity].
    destruct (nth_error (socks st) sid) as [s | ]; [ | reflexivity].
    destruct (readyState s =? OPEN); reflexivity.
  - exists []. split; [ | reflexivity].
    destruct (nth_error (socks st) sid) as [s | ]; [ | reflexivity].
    destruct (readyState s =? CLOSED); reflexivity.
  - exists []. split; [ | reflexivity].
    destruct (nth_error (socks st) sid) as [s | ]; reflexivity.
  - destruct (nth_error (socks st) sid) as [s | ]; [ | now exists []].
    destruct (readyState s =? OPEN); [ | now exists []].
    unfold ws_onmessage.
    destruct data as [m | ]; [ | now exists []].
    destruct (Js.get m "transcript") as [t | ]; [ | now exists []].
    match goal with |- context [negb ?b] => destruct b end; cbn [negb];
      [ | now exists []].
    eexists [OpAppendOriginal _]. split; reflexivity.
  - unfold translated.
    destruct (nth_error (tasks st) k) as [t | ]; [ | now exists []].
    destruct (existsb (Nat.eqb k) (settled st)); [now exists [] | ].
    eexists [OpAppend _ _]. split; reflexivity.
  - exists []. split; [ | reflexivity]. apply columns_send_slices.
  - exists [OpAdd now]. split; [ | reflexivity].
    unfold addColumn_click, apply_ops.
    cbn [fold_left apply_op]. unfold addColumn.
    destruct (2 <=? List.length (targets (columns st))); reflexivity.
  - destruct (nth_error (columns st) i) as [col | ] eqn:Ei; [ | now exists []].
    destruct (isOriginal col) eqn:Eo; [now exists [] | ].
    exists [OpRemove (id col)]. split; [reflexivity | ].
    cbn. apply nth_error_In in Ei.
    destruct (String.eqb_spec (id col) "original") as [E | _];
      [ | reflexivity].
    now apply (H col Ei Eo) in E.
  - destruct (nth_error (columns st) i) as [col | ]; [ | now exists []].
    unfold lang_select. destruct (isOriginal col).
    + exists [OpSetSrcLang l]. split; [ | reflexivity].
      unfold changeSrcLang_handler. exact (columns_stopLive_with _ _).
    + now exists [OpSetLang (id col) l].
  - now exists [OpClear].
  - destruct (nth_error (columns st) i) as [col | ]; [ | now exists []].
    now exists [OpDeleteLine (id col) lineIndex].
Qed.

(** On the page itself the original column is always there: whatever
    events occur, exactly one column carries the flag. *)
Lemma page_one_original_column (evs : list Event) :
  one_source (columns (run evs initial)).
Proof.
  unfold run.
  assert (H0 : one_source (columns initial) /\ targets_named (columns initial)).
  { split; [exact one_source_initial | ].
    intros c [<- | []]; discriminate. }
  revert H0. generalize initial as st.
  induction evs as [ | e evs IH]; cbn [fold_left]; intros st [H1 H2];
    [exact H1 | ].
  apply IH.
  destruct (@step_columns_keep_original e st H2) as (ops & -> & Hops).
  clear IH. revert H1 H2 Hops. generalize (columns st) as p. unfold apply_ops.
  induction ops as [ | op ops IHops]; cbn [fold_left forallb];
    intros p H1 H2 Hops; [now split | ].
  apply andb_prop in Hops. destruct Hops as [Hop Hops].
  apply IHops; [ | | exact Hops].
  - apply one_source_apply_op; [ | exact H1]. now destruct (removes_original op).
  - now apply targets_named_apply_op.
Qed.

(* ================================================================== *)
(** * Further properties of the page *)
(* ================================================================== *)

(** ** Language codes sent to the server *)

(** [mapLangForServer] is idempotent; every code that starts with [zh]
    is sent as [zh], so two such target languages give the same form,
    and every other code is sent as it is. *)
Theorem mapLangForServer_collapses_zh :
  forall region : string,
    mapLangForServer (mapLangForServer region) = mapLangForServer region /\
    (String.prefix "zh" region = true -> mapLangForServer region = "zh") /\
    (String.prefix "zh" region = false -> mapLangForServer region = region) /\
    (forall text src other,
       String.prefix "zh" region = true -> String.prefix "zh" other = true ->
       translateForm text src region = translateForm text src other).
Proof.
  intros region. unfold translateForm, mapLangForServer.
  destruct (String.prefix "zh" region) eqn:E.
  - repeat split; try reflexivity; try discriminate.
    intros text src other _ ->. reflexivity.
  - rewrite E. repeat split; try reflexivity; discriminate.
Qed.

Lemma mapLangForServer_collapses_zh_witness :
  mapLangForServer "zh_CN" = "zh" /\ mapLangForServer "en" = "en" /\
  translateForm (Js.Str "hello") "auto" "zh_CN"
    = translateForm (Js.Str "hello") "auto" "zh_TW".
Proof.
  split.
  - apply (proj1 (proj2 (mapLangForServer_collapses_zh "zh_CN"))).
    reflexivity.
  - split.
    + apply (proj1 (proj2 (proj2 (mapLangForServer_collapses_zh "en")))).
      reflexivity.
    + apply (proj2 (proj2 (proj2 (mapLangForServer_collapses_zh "zh_CN"))));
        reflexivity.
Defined.

(** ** Deleting a line *)

Lemma drop_index_length {A : Type} (l : list A) :
  forall k, k < List.length l ->
            S (List.length (drop_index k l)) = List.length l.
Proof.
  induction l as [ | x l IH]; intros k Hk; simpl in Hk; [lia | ].
  destruct k as [ | k]; simpl; [reflexivity | ].
  rewrite IH by lia. reflexivity.
Qed.

Lemma drop_index_nth {A : Type} (l : list A) :
  forall k i,
    nth_error (drop_index k l) i =
    if i <? k then nth_error l i else nth_error l (S i).
Proof.
  induction l as [ | x l IH]; intros k i.
  - destruct k; cbn [drop_index]; rewrite !nth_error_nil;
      now destruct (i <? _).
  - destruct k as [ | k]; simpl; [reflexivity | ].
    destruct i as [ | i]; simpl; [reflexivity | ].
    rewrite IH. reflexivity.
Qed.

Lemma drop_index_beyond {A : Type} (l : list A) :
  forall k, List.length l <= k -> drop_index k l = l.
Proof.
  induction l as [ | x l IH]; intros k Hk; [now destruct k | ].
  destruct k as [ | k]; simpl in *; [lia | ].
  rewrite IH by lia. reflexivity.
Qed.

(** [deleteLine] with an index inside the lines of the column removes the
    line at that index and keeps the others in order, one line fewer; with
    an index past the end it changes nothing; columns with another id are
    never touched, and no id, label, language or flag changes. *)
Theorem deleteLine_bounds :
  forall (p : list Column) (cid : string) (k i : nat) (c : Column),
    nth_error p i = Some c ->
    exists c',
      nth_error (deleteLine cid k p) i = Some c' /\
      id c' = id c /\ label c' = label c /\ lang c' = lang c /\
      isOriginal c' = isOriginal c /\
      (id c <> cid -> c' = c) /\
      (id c = cid ->
       (forall j, nth_error (lines c') j =
                  if j <? k then nth_error (lines c) j
                  else nth_error (lines c) (S j)) /\
       (k < List.length (lines c) ->
        S (List.length (lines c')) = List.length (lines c)) /\
       (List.length (lines c) <= k -> c' = c)).
Proof.
  intros p cid k i c H. unfold deleteLine.
  rewrite nth_error_map, H. cbn [option_map].
  eexists. split; [reflexivity | ].
  destruct (String.eqb_spec (id c) cid) as [E | E].
  - cbn [id label lang isOriginal lines set_lines].
    repeat split; try congruence.
    + intros j. apply drop_index_nth.
    + now apply drop_index_length.
    + intros Hk. rewrite drop_index_beyond by exact Hk. now destruct c.
  - repeat split; congruence.
Qed.

Lemma deleteLine_bounds_witness :
  let p := apply_ops [OpAppendOriginal (Js.Str "a");
                      OpAppendOriginal (Js.Str "b");
                      OpAppendOriginal (Js.Str "c")] initial_columns in
  map lines (deleteLine "original" 1 p) = [[Js.Str "a"; Js.Str "c"]] /\
  deleteLine "original" 3 p = p /\
  exists c', nth_error (deleteLine "original" 1 p) 0 = Some c' /\
             S (List.length (lines c')) = 3.
Proof.
  split; [reflexivity | ].
  split; [reflexivity | ].
  pose (p := apply_ops [OpAppendOriginal (Js.Str "a");
                        OpAppendOriginal (Js.Str "b");
                        OpAppendOriginal (Js.Str "c")] initial_columns).
  assert (E : nth_error p 0 =
              Some {| id := "original"; label := "Original"; lang := "auto";
                      lines := [Js.Str "a"; Js.Str "b"; Js.Str "c"];
                      isOriginal := true |}) by reflexivity.
  destruct (deleteLine_bounds p "original" 1 0 E)
    as (c' & Hc' & _ & _ & _ & _ & _ & Hdel).
  exists c'. split; [exact Hc' | ].
  destruct (Hdel eq_refl) as (_ & Hlen & _).
  apply Hlen. simpl. lia.
Defined.

(** ** Clearing, removing and adding columns *)

Lemma set_lines_set_lines (ls ls' : list Js.val) (c : Column) :
  set_lines ls (set_lines ls' c) = set_lines ls c.
Proof. reflexivity. Qed.

(** [clearOutputs] leaves every column with no line and nothing else
    changed, and wipes out whatever appends, line deletions or clearings
    came just before it. *)
Theorem clearOutputs_absorbs_line_updates :
  forall (p : list Column),
    map lines (clearOutputs p) = map (fun _ => []) p /\
    map id (clearOutputs p) = map id p /\
    map lang (clearOutputs p) = map lang p /\
    map isOriginal (clearOutputs p) = map isOriginal p /\
    (forall op, line_op op = true ->
                clearOutputs (apply_op op p) = clearOutputs p).
Proof.
  intros p. unfold clearOutputs.
  rewrite !map_map. cbn [lines id lang isOriginal set_lines].
  repeat split; try reflexivity.
  intros op Hop.
  destruct op; try discriminate; cbn [apply_op];
    unfold clearOutputs, appendOriginal, appendTranslated, deleteLine;
    rewrite map_map; apply map_ext; intros c;
    try match goal with
        | |- context [if ?b then _ else _] => destruct b
        end; reflexivity.
Qed.

Lemma clearOutputs_absorbs_line_updates_witness :
  clearOutputs (apply_op (OpAppendOriginal (Js.Str "hello")) initial_columns)
  = clearOutputs initial_columns.
Proof.
  apply (proj2 (proj2 (proj2 (proj2
           (clearOutputs_absorbs_line_updates initial_columns))))
           (OpAppendOriginal (Js.Str "hello"))).
  reflexivity.
Defined.

Lemma removeColumn_absent (cid : string) (p : list Column) :
  (forall c, In c p -> id c <> cid) -> removeColumn cid p = p.
Proof.
  intros H. unfold removeColumn.
  induction p as [ | c p IH]; simpl; [reflexivity | ].
  destruct (String.eqb_spec (id c) cid) as [E | _]; simpl.
  - exfalso. apply (H c); [now left | exact E].
  - f_equal. apply IH. intros c' Hc'. apply H. now right.
Qed.

(** [removeColumn] keeps exactly the columns with another id, in their
    order and as often as they occur: a column with another id stays
    between what is kept of the columns before it and what is kept of the
    columns after it, and a column with the id leaves just these two parts,
    one after the other.  Removing twice is removing once, removals
    commute, removing an id no column has changes nothing, and the list
    never grows. *)
Theorem removeColumn_keeps_the_others :
  forall (cid : string) (p : list Column),
    (forall c, In c (removeColumn cid p) <-> In c p /\ id c <> cid) /\
    removeColumn cid (removeColumn cid p) = removeColumn cid p /\
    (forall cid', removeColumn cid (removeColumn cid' p)
                  = removeColumn cid' (removeColumn cid p)) /\
    ((forall c, In c p -> id c <> cid) -> removeColumn cid p = p) /\
    List.length (removeColumn cid p) <= List.length p /\
    (forall p1 c p2, p = p1 ++ c :: p2 -> id c <> cid ->
       removeColumn cid p = removeColumn cid p1 ++ c :: removeColumn cid p2) /\
    (forall p1 c p2, p = p1 ++ c :: p2 -> id c = cid ->
       removeColumn cid p = removeColumn cid p1 ++ removeColumn cid p2).
Proof.
  intros cid p.
  split; [ | split; [ | split; [ | split; [ | split; [ | split]]]]].
  - intros c. unfold removeColumn. rewrite filter_In.
    destruct (String.eqb_spec (id c) cid); simpl; intuition congruence.
  - unfold removeColumn. induction p as [ | c p IH]; simpl; [reflexivity | ].
    destruct (String.eqb (id c) cid) eqn:E; simpl; rewrite ?E; simpl;
      now rewrite IH.
  - intros cid'. apply filter_swap.
  - apply removeColumn_absent.
  - apply filter_length_le.
  - intros p1 c p2 -> Hc. unfold removeColumn. rewrite filter_app.
    cbn [filter]. apply String.eqb_neq in Hc. now rewrite Hc.
  - intros p1 c p2 -> Hc. unfold removeColumn. rewrite filter_app.
    cbn [filter]. apply String.eqb_eq in Hc. now rewrite Hc.
Qed.

Lemma removeColumn_keeps_the_others_witness :
  removeColumn "5" initial_columns = initial_columns /\
  removeColumn "5" (initial_columns ++ newCol 7 no_over
                      :: [newCol 5 no_over; newCol 9 no_over])
  = removeColumn "5" initial_columns
      ++ newCol 7 no_over
      :: removeColumn "5" [newCol 5 no_over; newCol 9 no_over] /\
  removeColumn "5" (initial_columns ++ newCol 7 no_over
                      :: [newCol 5 no_over; newCol 9 no_over])
  = initial_columns ++ [newCol 7 no_over; newCol 9 no_over].
Proof.
  split; [ | split].
  - apply (proj1 (proj2 (proj2 (proj2
             (removeColumn_keeps_the_others "5" initial_columns))))).
    intros c [<- | []]. discriminate.
  - apply (proj1 (proj2 (proj2 (proj2 (proj2 (proj2
             (removeColumn_keeps_the_others "5"
                (initial_columns ++ newCol 7 no_over
                   :: [newCol 5 no_over; newCol 9 no_over]))))))));
      [reflexivity | discriminate].
  - reflexivity.
Defined.

(** A column added and then removed by its id leaves the list as it was,
    provided there was room for it and its id was not in use. *)
Theorem addColumn_then_removeColumn :
  forall (now : N) (p : list Column),
    List.length (targets p) < 2 ->
    (forall c, In c p -> id c <> date_string now) ->
    removeColumn (date_string now) (fst (addColumn now p)) = p.
Proof.
  intros now p Hroom Hfresh. unfold addColumn.
  destruct (Nat.leb_spec 2 (List.length (targets p))) as [H | _]; [lia | ].
  cbn [fst]. unfold removeColumn. rewrite filter_app. cbn [filter newCol id
    no_over o_id]. rewrite String.eqb_refl. cbn [negb]. rewrite app_nil_r.
  fold (removeColumn (date_string now) p).
  now apply removeColumn_absent.
Qed.

Lemma addColumn_then_removeColumn_witness :
  removeColumn (date_string 1700000000000)
               (fst (addColumn 1700000000000 initial_columns))
  = initial_columns.
Proof.
  apply (addColumn_then_removeColumn 1700000000000 initial_columns).
  - simpl. lia.
  - intros c [<- | []]. now vm_compute.
Defined.

(** ** Column ids *)

Lemma N_to_uint_nonnil (n : N) : N.to_uint n <> Decimal.Nil.
Proof.
  destruct n as [ | q]; simpl; [discriminate | ].
  apply DecimalPos.Unsigned.to_uint_nonnil.
Qed.

Lemma date_string_inj (a b : N) : date_string a = date_string b -> a = b.
Proof.
  unfold date_string. intros E.
  apply DecimalN.Unsigned.to_uint_inj.
  pose proof (NilZero.usu (N.to_uint a) (N_to_uint_nonnil a)) as Ha.
  pose proof (NilZero.usu (N.to_uint b) (N_to_uint_nonnil b)) as Hb.
  rewrite E in Ha. congruence.
Qed.

(** Two clock readings give the same id exactly when they are the same
    reading, and no reading gives the id of the original column. *)
Theorem date_string_distinguishes_readings :
  forall a b : N,
    String.eqb (date_string a) (date_string b) = N.eqb a b /\
    String.eqb (date_string a) "original" = false.
Proof.
  intros a b. split.
  - destruct (N.eqb_spec a b) as [-> | Hne].
    + apply String.eqb_refl.
    + apply String.eqb_neq. intros E. now apply date_string_inj in E.
  - apply String.eqb_neq, date_string_not_original.
Qed.

Lemma NoDup_map_filter {A B : Type} (f : A -> B) (g : A -> bool) (l : list A) :
  NoDup (map f l) -> NoDup (map f (filter g l)).
Proof.
  induction l as [ | x l IH]; simpl; intros H; [constructor | ].
  inversion H as [ | ? ? Hx Hl]; subst.
  destruct (g x); simpl; [ | now apply IH].
  constructor; [ | now apply IH].
  intros Hin. apply Hx. apply in_map_iff in Hin.
  destruct Hin as (y & Hy & Hin). apply filter_In in Hin.
  apply in_map_iff. exists y. tauto.
Qed.

Lemma ids_unique_from (ops : list Op) :
  forall (p : list Column) (used : list N),
    NoDup (map id p) ->
    (forall c, In c p ->
               id c = "original" \/ exists n, In n used /\ id c = date_string n) ->
    NoDup (add_times ops) ->
    (forall n, In n (add_times ops) -> ~ In n used) ->
    NoDup (map id (apply_ops ops p)).
Proof.
  unfold apply_ops.
  induction ops as [ | op ops IH]; intros p used Hnd Hids Ht Hnew;
    cbn [fold_left]; [exact Hnd | ].
  assert (Hmap : match op with OpAdd _ | OpRemove _ => false | _ => true end
                 = true ->
                 NoDup (map id (fold_left (fun q o => apply_op o q) ops
                                          (apply_op op p)))).
  { intros Hop. rewrite (apply_op_map op p Hop).
    apply (IH _ used).
    - rewrite map_map. erewrite map_ext; [exact Hnd | ].
      intros c. apply op_map_id.
    - intros c Hc. apply in_map_iff in Hc. destruct Hc as (c0 & <- & Hc0).
      rewrite op_map_id. now apply Hids.
    - destruct op; try discriminate; exact Ht.
    - destruct op; try discriminate; exact Hnew. }
  destruct op; try (apply Hmap; reflexivity); clear Hmap.
  - cbn [add_times flat_map app] in Ht, Hnew.
    change (flat_map _ ops) with (add_times ops) in Ht, Hnew.
    inversion Ht as [ | ? ? Hnow Ht']; subst.
    apply (IH _ (now :: used)); [ | | exact Ht' | ].
    + cbn [apply_op]. unfold addColumn.
      destruct (2 <=? List.length (targets p)); cbn [fst]; [exact Hnd | ].
      rewrite map_app. cbn [map newCol id no_over o_id].
      apply NoDup_app;
        [exact Hnd | repeat constructor; simpl; tauto | ].
      intros x Hx [<- | []]. apply in_map_iff in Hx.
      destruct Hx as (c & Hc & Hin).
      destruct (Hids c Hin) as [E | (n & Hn & E)].
      * rewrite E in Hc. symmetry in Hc.
        now apply date_string_not_original in Hc.
      * rewrite E in Hc. apply date_string_inj in Hc. subst n.
        apply (Hnew now); [now left | exact Hn].
    + cbn [apply_op]. unfold addColumn.
      destruct (2 <=? List.length (targets p)); cbn [fst].
      * intros c Hc. destruct (Hids c Hc) as [E | (n & Hn & E)];
          [now left | right; exists n; split; [now right | exact E]].
      * intros c Hc. apply in_app_iff in Hc.
        destruct Hc as [Hc | [<- | []]].
        -- destruct (Hids c Hc) as [E | (n & Hn & E)];
             [now left | right; exists n; split; [now right | exact E]].
        -- right. exists now. split; [now left | reflexivity].
    + intros n Hn [<- | Hin]; [now apply Hnow | ].
      apply (Hnew n); [now right | exact Hin].
  - apply (IH _ used); [ | | exact Ht | exact Hnew].
    + cbn [apply_op]. unfold removeColumn. now apply NoDup_map_filter.
    + cbn [apply_op]. unfold removeColumn. intros c Hc.
      apply filter_In in Hc. now apply Hids.
Qed.

(** When no two calls of [addColumn] read the same clock value, no two
    columns ever share an id. *)
Theorem column_ids_unique :
  forall ops : list Op,
    NoDup (add_times ops) ->
    NoDup (map id (apply_ops ops initial_columns)).
Proof.
  intros ops Ht. apply (@ids_unique_from ops initial_columns []).
  - simpl. repeat constructor. simpl. tauto.
  - intros c [<- | []]. now left.
  - exact Ht.
  - intros n _ [].
Qed.

Lemma column_ids_unique_witness :
  NoDup (map id (apply_ops [OpAdd 11; OpRemove "11"; OpAdd 12; OpAdd 13;
                            OpClear]
                           initial_columns)).
Proof.
  apply (column_ids_unique [OpAdd 11; OpRemove "11"; OpAdd 12; OpAdd 13;
                            OpClear]).
  simpl. repeat constructor; simpl; intuition discriminate.
Defined.

(** Two columns added at the same clock reading share their id: removing
    that id removes both, and a language chosen for it is set on both. *)
Theorem same_reading_same_id :
  forall (now : N) (p : list Column) (l : string),
    targets p = [] ->
    let p2 := fst (addColumn now (fst (addColumn now p))) in
    map id (targets p2) = [date_string now; date_string now] /\
    removeColumn (date_string now) p2 = removeColumn (date_string now) p /\
    map lang (targets (changeLang (date_string now) l p2)) = [l; l].
Proof.
  intros now p l Ht. cbv zeta. unfold addColumn.
  rewrite Ht. cbn [List.length Nat.leb fst].
  assert (Ht1 : targets (p ++ [newCol now no_over]) = [newCol now no_over]).
  { unfold targets in *. now rewrite filter_app, Ht. }
  rewrite Ht1. cbn [List.length Nat.leb fst].
  assert (Ht2 : targets ((p ++ [newCol now no_over]) ++ [newCol now no_over])
                = [newCol now no_over; newCol now no_over]).
  { unfold targets in *. rewrite filter_app. fold (targets (p ++ [newCol now no_over])).
    unfold targets. now rewrite filter_app, Ht. }
  split; [ | split].
  - now rewrite Ht2.
  - unfold removeColumn. rewrite !filter_app.
    cbn [filter newCol id no_over o_id]. rewrite String.eqb_refl.
    cbn [negb]. now rewrite !app_nil_r.
  - unfold targets, changeLang in *.
    rewrite filter_map_commute
      by (intros c; destruct (String.eqb (id c) (date_string now));
          reflexivity).
    rewrite Ht2. cbn [map newCol id no_over o_id].
    rewrite String.eqb_refl. reflexivity.
Qed.

Lemma same_reading_same_id_witness :
  targets initial_columns = [] /\
  removeColumn (date_string 42)
    (fst (addColumn 42 (fst (addColumn 42 initial_columns))))
  = initial_columns.
Proof.
  split; [reflexivity | ].
  apply (proj1 (proj2 (same_reading_same_id 42 initial_columns "fr" eq_refl))).
Defined.

(** ** No empty line is ever stored *)

Lemma translateText_truthy (text : Js.val) (src tgt : string) (r : FetchResult) :
  Js.truthy text = true -> Js.truthy (translateText text src tgt r) = true.
Proof.
  intros H. rewrite translateText_accepted.
  destruct (accepted_field r) as [v | ] eqn:E; [ | exact H].
  now apply accepted_field_truthy in E.
Qed.

Lemma forallb_drop_index {A : Type} (f : A -> bool) (l : list A) :
  forall k, forallb f l = true -> forallb f (drop_index k l) = true.
Proof.
  induction l as [ | x l IH]; intros k H; [now destruct k | ].
  simpl in H. apply andb_prop in H. destruct H as [Hx Hl].
  destruct k as [ | k]; simpl; [exact Hl | ].
  rewrite Hx. now apply IH.
Qed.

Lemma lines_truthy_apply_op (op : Op) (p : list Column) :
  op_truthy op = true -> lines_truthy p = true ->
  lines_truthy (apply_op op p) = true.
Proof.
  unfold lines_truthy. intros Hop H.
  rewrite forallb_forall in H. apply forallb_forall. intros c Hc.
  destruct op; cbn [apply_op op_truthy] in *.
  - unfold addColumn in Hc.
    destruct (2 <=? List.length (targets p)); cbn [fst] in Hc;
      [now apply H | ].
    apply in_app_iff in Hc. destruct Hc as [Hc | [<- | []]];
      [now apply H | reflexivity].
  - unfold removeColumn in Hc. apply filter_In in Hc. now apply H.
  - unfold changeLang in Hc. apply in_map_iff in Hc.
    destruct Hc as (c0 & <- & Hc0).
    destruct (String.eqb (id c0) cid); [reflexivity | now apply H].
  - unfold changeSrcLang in Hc. apply in_map_iff in Hc.
    destruct Hc as (c0 & <- & Hc0).
    destruct (isOriginal c0); cbn [lines set_lang]; now apply H.
  - unfold clearOutputs in Hc. apply in_map_iff in Hc.
    destruct Hc as (c0 & <- & Hc0). reflexivity.
  - unfold appendOriginal in Hc. apply in_map_iff in Hc.
    destruct Hc as (c0 & <- & Hc0).
    destruct (isOriginal c0); [ | now apply H].
    cbn [lines set_lines]. rewrite forallb_app, (H c0 Hc0).
    simpl. now rewrite Hop.
  - unfold appendTranslated in Hc. apply in_map_iff in Hc.
    destruct Hc as (c0 & <- & Hc0).
    destruct (String.eqb (id c0) cid); [ | now apply H].
    cbn [lines set_lines]. rewrite forallb_app, (H c0 Hc0).
    simpl. now rewrite Hop.
  - unfold deleteLine in Hc. apply in_map_iff in Hc.
    destruct Hc as (c0 & <- & Hc0).
    destruct (String.eqb (id c0) cid); [ | now apply H].
    cbn [lines set_lines]. apply forallb_drop_index. now apply H.
Qed.

Lemma lines_truthy_apply_ops (ops : list Op) :
  forall p, forallb op_truthy ops = true -> lines_truthy p = true ->
            lines_truthy (apply_ops ops p) = true.
Proof.
  unfold apply_ops.
  induction ops as [ | op ops IH]; cbn [fold_left forallb]; intros p Hops H;
    [exact H | ].
  apply andb_prop in Hops. destruct Hops as [Hop Hops].
  apply IH; [exact Hops | ]. now apply lines_truthy_apply_op.
Qed.

Lemma tasks_closeSocket (st : State) : tasks (closeSocket st) = tasks st.
Proof. unfold closeSocket. destruct (wsRef st); reflexivity. Qed.

Lemma tasks_stopLive_with (seen : bool) (st : State) :
  tasks (stopLive_with seen st) = tasks st.
Proof.
  unfold stopLive_with, closeSocket. destruct seen; simpl; [ | reflexivity].
  destruct (wsRef st); simpl; destruct (streamRef st); reflexivity.
Qed.

Lemma tasks_startLive_begin_with (b : bool) (cols : list Column) (st : State) :
  tasks (startLive_begin_with b cols st) = tasks st.
Proof.
  unfold startLive_begin_with, openSocket. destruct b; [reflexivity | ].
  exact (tasks_closeSocket _).
Qed.

Lemma tasks_startLive_resume (o : MicOutcome) (st : State) :
  tasks (startLive_resume o st) = tasks st.
Proof.
  unfold startLive_resume, attachMic. destruct o; [reflexivity | ].
  exact (tasks_closeSocket _).
Qed.

Lemma tasks_send_slices (fs : list (list byte)) (st : State) :
  tasks (fold_left send_slice fs st) = tasks st.
Proof.
  revert st. induction fs as [ | f fs IH]; simpl; intros st; [reflexivity | ].
  rewrite IH. unfold send_slice. destruct (ws_ready st); reflexivity.
Qed.

(** What an event does to columns and calls, as far as truthiness goes. *)
Lemma step_truthy (e : Event) (st : State) :
  tasks_truthy (tasks st) = true ->
  tasks_truthy (tasks (step e st)) = true /\
  exists ops,
    columns (step e st) = apply_ops ops (columns st) /\
    forallb op_truthy ops = true.
Proof.
  intros Ht. destruct e; cbn [step].
  - destruct (isLive st || isProcessing st).
    + split; [exact Ht | now exists []].
    + rewrite tasks_startLive_begin_with. split; [exact Ht | ].
      exists []. split; [apply columns_startLive_begin_with | reflexivity].
  - destruct (awaitingMic st).
    + split; [exact Ht | now exists []].
    + split; [exact (eq_trans (f_equal tasks_truthy
                                 (tasks_startLive_resume o st)) Ht) | ].
      exists []. split; [exact (columns_startLive_resume _ _) | reflexivity].
  - destruct (isLive st).
    + unfold stopLive. rewrite tasks_stopLive_with. split; [exact Ht | ].
      exists []. split; [apply columns_stopLive_with | reflexivity].
    + split; [exact Ht | now exists []].
  - destruct (timers st) as [ | [b cols] rest].
    + split; [exact Ht | now exists []].
    + rewrite tasks_startLive_begin_with. split; [exact Ht | ].
      exists []. split; [exact (columns_startLive_begin_with _ _ _) | reflexivity].
  - destruct (nth_error (socks st) sid) as [s | ];
      [destruct (readyState s =? CONNECTING) | ];
      (split; [exact Ht | now exists []]).
  - destruct (nth_error (socks st) sid) as [s | ];
      [destruct (readyState s =? OPEN) | ];
      (split; [exact Ht | now exists []]).
  - destruct (nth_error (socks st) sid) as [s | ];
      [destruct (readyState s =? CLOSED) | ];
      (split; [exact Ht | now exists []]).
  - destruct (nth_error (socks st) sid) as [s | ];
      (split; [exact Ht | now exists []]).
  - destruct (nth_error (socks st) sid) as [s | ];
      [ | split; [exact Ht | now exists []]].
    destruct (readyState s =? OPEN); [ | split; [exact Ht | now exists []]].
    unfold ws_onmessage.
    destruct data as [m | ]; [ | split; [exact Ht | now exists []]].
    destruct (Js.get m "transcript") as [t | ];
      [ | split; [exact Ht | now exists []]].
    match goal with
    | |- context [negb (Js.truthy ?raw)] => destruct (Js.truthy raw) eqn:Eraw
    end; cbn [negb]; [ | split; [exact Ht | now exists []]].
    split.
    + cbn [tasks set_tasks]. unfold tasks_truthy in *.
      rewrite forallb_app, Ht. cbn [andb].
      apply forallb_forall. intros t' Ht'. apply in_map_iff in Ht'.
      destruct Ht' as (c & <- & _). exact Eraw.
    + eexists [OpAppendOriginal _]. split; [reflexivity | ].
      cbn. now rewrite Eraw.
  - unfold translated.
    destruct (nth_error (tasks st) k) as [t | ] eqn:Ek;
      [ | split; [exact Ht | now exists []]].
    destruct (existsb (Nat.eqb k) (settled st));
      [split; [exact Ht | now exists []] | ].
    split; [exact Ht | ].
    eexists [OpAppend _ _]. split; [reflexivity | ].
    cbn. rewrite translateText_truthy; [reflexivity | ].
    unfold tasks_truthy in Ht. rewrite forallb_forall in Ht.
    apply Ht. now apply nth_error_In in Ek.
  - unfold onaudioprocess. rewrite tasks_send_slices. split; [exact Ht | ].
    exists []. split; [apply columns_send_slices | reflexivity].
  - split.
    + unfold addColumn_click.
      destruct (addColumn now (columns st)) as [p [ | ]]; exact Ht.
    + exists [OpAdd now]. split; [ | reflexivity].
      unfold addColumn_click, apply_ops.
      cbn [fold_left apply_op]. unfold addColumn.
      destruct (2 <=? List.length (targets (columns st))); reflexivity.
  - destruct (nth_error (columns st) i) as [col | ];
      [ | split; [exact Ht | now exists []]].
    destruct (isOriginal col); [split; [exact Ht | now exists []] | ].
    split; [exact Ht | now exists [OpRemove (id col)]].
  - destruct (nth_error (columns st) i) as [col | ];
      [ | split; [exact Ht | now exists []]].
    unfold lang_select. destruct (isOriginal col).
    + unfold changeSrcLang_handler. split.
      * cbn [tasks set_timers]. now rewrite tasks_stopLive_with.
      * exists [OpSetSrcLang l]. split; [ | reflexivity].
        exact (columns_stopLive_with _ _).
    + split; [exact Ht | now exists [OpSetLang (id col) l]].
  - split; [exact Ht | now exists [OpClear]].
  - destruct (nth_error (columns st) i) as [col | ];
      [ | split; [exact Ht | now exists []]].
    split; [exact Ht | now exists [OpDeleteLine (id col) lineIndex]].
Qed.

Lemma no_empty_line_stored_lines (evs : list Event) :
  lines_truthy (columns (run evs initial)) = true /\
  tasks_truthy (tasks (run evs initial)) = true.
Proof.
  unfold run.
  assert (H0 : lines_truthy (columns initial) = true /\
               tasks_truthy (tasks initial) = true) by (split; reflexivity).
  revert H0. generalize initial as st.
  induction evs as [ | e evs IH]; cbn [fold_left]; intros st [Hl Ht];
    [now split | ].
  apply IH. destruct (step_truthy e st Ht) as (Ht' & ops & -> & Hops).
  split; [ | exact Ht']. now apply lines_truthy_apply_ops.
Qed.

(** Whatever events occur, every line held by a column is truthy: the
    fragment appended to the original column is, and so is whatever
    [translateText] resolves to for it.  In particular no line is the empty
    string. *)
Theorem no_empty_line_stored :
  forall evs : list Event,
    lines_truthy (columns (run evs initial)) = true /\
    tasks_truthy (tasks (run evs initial)) = true /\
    forall c, In c (columns (run evs initial)) -> ~ In (Js.Str "") (lines c).
Proof.
  intros evs.
  destruct (no_empty_line_stored_lines evs) as [Hl Ht].
  split; [exact Hl | split; [exact Ht | ]].
  intros c Hc Hin. unfold lines_truthy in Hl.
  rewrite forallb_forall in Hl. specialize (Hl c Hc).
  rewrite forallb_forall in Hl. now apply Hl in Hin.
Qed.

Lemma no_empty_line_stored_witness :
  In hello_column (columns (run [StartClick; MicSettled (MicOk mic0);
                                 SockOpen 0;
                                 SockMessage 0 (transcript_message "hello")]
                                initial)) /\
  ~ In (Js.Str "") (lines hello_column).
Proof.
  assert (H : In hello_column
                 (columns (run [StartClick; MicSettled (MicOk mic0);
                                SockOpen 0;
                                SockMessage 0 (transcript_message "hello")]
                               initial))) by (left; reflexivity).
  split; [exact H | ].
  exact (proj2 (proj2 (no_empty_line_stored _)) hello_column H).
Defined.

(** ** Rows on screen *)

Lemma list_max_attained (l : list nat) : l <> [] -> In (list_max l) l.
Proof.
  induction l as [ | x l IH]; intros H; [congruence | ].
  destruct l as [ | y l].
  - left. simpl. lia.
  - change (list_max (x :: y :: l)) with (Nat.max x (list_max (y :: l))).
    destruct (Nat.max_spec x (list_max (y :: l))) as [[_ ->] | [_ ->]].
    + right. apply IH. discriminate.
    + now left.
Qed.

(** Every column is shown with the same number of rows, the greatest
    number of lines any column has: its lines first, then rows holding the
    empty string. *)
Theorem rows_aligned :
  forall (p : list Column) (col : Column),
    In col p ->
    exists m,
      maxLines p = Some m /\
      List.length (lines col) <= m /\
      List.length (rows (maxLines p) col) = m /\
      firstn (List.length (lines col)) (rows (maxLines p) col) = lines col /\
      skipn (List.length (lines col)) (rows (maxLines p) col)
        = repeat (Js.Str "") (m - List.length (lines col)) /\
      exists c, In c p /\ List.length (lines c) = m.
Proof.
  intros p col Hin.
  destruct p as [ | c0 p0] eqn:Ep; [destruct Hin | ]. rewrite <- Ep in *.
  exists (list_max (map (fun c => List.length (lines c)) p)).
  assert (Hm : maxLines p
               = Some (list_max (map (fun c => List.length (lines c)) p)))
    by now rewrite Ep.
  assert (Hle : List.length (lines col)
                <= list_max (map (fun c => List.length (lines c)) p)).
  { pose proof (proj1 (list_max_le (map (fun c => List.length (lines c)) p) _)
                      (Nat.le_refl _)) as Hall.
    rewrite Forall_forall in Hall. apply Hall.
    apply in_map_iff. now exists col. }
  rewrite Hm. unfold rows.
  split; [reflexivity | ]. split; [exact Hle | ].
  split; [rewrite length_app, repeat_length; lia | ].
  split; [now rewrite firstn_app, Nat.sub_diag, firstn_all, app_nil_r | ].
  split; [now rewrite skipn_app, Nat.sub_diag, skipn_all | ].
  assert (Hne : map (fun c => List.length (lines c)) p <> [])
    by (rewrite Ep; discriminate).
  apply list_max_attained in Hne. apply in_map_iff in Hne.
  destruct Hne as (c & Hc & Hcin). now exists c.
Qed.

Lemma rows_aligned_witness :
  let p := columns (run (settlings [(0, reply "ZERO")]) three_fragments) in
  map (fun c => List.length (lines c)) p = [3; 1] /\
  Forall (fun col => List.length (rows (maxLines p) col) = 3) p.
Proof.
  split; [reflexivity | ].
  apply Forall_forall. intros col Hcol.
  destruct (rows_aligned _ col Hcol) as (m & Hm & _ & Hlen & _).
  rewrite Hlen. vm_compute in Hm. now injection Hm as <-.
Defined.

(** On the page the column list is never empty, so the number of rows is
    never [-Infinity]; and a row holds a truthy value exactly when it is
    one of the column's lines, so the buttons of a row (delete, play),
    shown for truthy rows only, always belong to a stored line. *)
Theorem rows_with_buttons_are_lines :
  forall (evs : list Event),
    let p := columns (run evs initial) in
    (exists m, maxLines p = Some m) /\
    forall col i v,
      In col p -> nth_error (rows (maxLines p) col) i = Some v ->
      (Js.truthy v = true <-> i < List.length (lines col)).
Proof.
  intros evs p. split.
  - destruct (page_one_original_column evs) as (c & Hs & _).
    fold p in Hs. destruct p as [ | c0 p0]; [discriminate | ].
    simpl. eauto.
  - intros col i v Hcol Hv. unfold rows in Hv.
    destruct (Nat.lt_ge_cases i (List.length (lines col))) as [Hlt | Hge].
    + rewrite nth_error_app1 in Hv by exact Hlt.
      split; [intros _; exact Hlt | intros _].
      destruct (no_empty_line_stored_lines evs) as [Hl _].
      fold p in Hl. unfold lines_truthy in Hl.
      rewrite forallb_forall in Hl. specialize (Hl col Hcol).
      rewrite forallb_forall in Hl. apply Hl.
      now apply nth_error_In in Hv.
    + rewrite nth_error_app2 in Hv by exact Hge.
      apply nth_error_In, repeat_spec in Hv. subst v.
      split; [discriminate | lia].
Qed.

Lemma rows_with_buttons_are_lines_witness :
  In target_with_one_line (columns (run first_settled_events initial)) /\
  nth_error (rows (maxLines (columns (run first_settled_events initial)))
                  target_with_one_line) 1 = Some (Js.Str "") /\
  ~ 1 < List.length (lines target_with_one_line).
Proof.
  assert (Hcol : In target_with_one_line
                    (columns (run first_settled_events initial)))
    by (vm_compute; right; left; reflexivity).
  assert (Hv : nth_error
                 (rows (maxLines (columns (run first_settled_events initial)))
                       target_with_one_line) 1
               = Some (Js.Str "")) by (vm_compute; reflexivity).
  split; [exact Hcol | ]. split; [exact Hv | ].
  intros Hlt.
  apply (proj2 (rows_with_buttons_are_lines first_settled_events)
               _ _ _ Hcol Hv) in Hlt.
  discriminate.
Defined.

(** ** Number of wire chunks *)

Lemma slices_from_length (pcm : list byte) (i : nat) :
  List.length (slices_from pcm i) = (List.length pcm - i + 319) / 320.
Proof.
  funelim (slices_from pcm i); cbn [List.length].
  - match goal with IH : List.length _ = _ |- _ => rewrite IH end.
    destruct (Nat.lt_ge_cases (List.length pcm - i) 320) as [Hs | Hb].
    + replace (List.length pcm - (i + 320)) with 0 by lia.
      rewrite (Nat.div_small (0 + 319) 320) by lia.
      apply (Nat.div_unique _ 320 1 (List.length pcm - i - 1)); lia.
    + replace (List.length pcm - i + 319)
        with (List.length pcm - (i + 320) + 319 + 1 * 320) by lia.
      rewrite Nat.div_add by lia. lia.
  - replace (List.length pcm - i) with 0 by lia.
    symmetry. apply Nat.div_small. lia.
Qed.

(** A buffer of n bytes is sent as ceil(n / 320) frames, which carry n
    bytes in all; an empty buffer gives no frame. *)
Theorem number_of_wire_chunks :
  forall pcm : list byte,
    List.length (slices pcm) = (List.length pcm + 319) / 320 /\
    list_sum (map (@List.length byte) (slices pcm)) = List.length pcm /\
    slices [] = [].
Proof.
  intros pcm. split; [ | split].
  - unfold slices. rewrite slices_from_length. now rewrite Nat.sub_0_r.
  - rewrite <- length_concat. unfold slices.
    now rewrite slices_from_concat.
  - reflexivity.
Qed.

(** ** Fragments in order of arrival *)

Lemma ws_onmessage_fragment (sl : string) (data : option Js.val) (st : State) :
  ws_onmessage sl data st =
  match fragment data with
  | Some raw =>
      set_tasks (tasks st ++ fan_out sl (columns st) raw)
        (emit (map fetch_of (fan_out sl (columns st) raw))
           (set_columns (appendOriginal raw (columns st)) st))
  | None => st
  end.
Proof.
  destruct data as [[ | | | | | | fields] | ]; try reflexivity.
  cbn [ws_onmessage fragment Js.get]. unfold Js.get_opt.
  destruct (Js.lookup "transcript" fields) as [ | | b | z | s | xs | tfields];
    cbn [Js.typeof_object Js.get]; try reflexivity;
    match goal with
    | |- context [negb (Js.truthy ?raw)] => destruct (Js.truthy raw)
    end; reflexivity.
Qed.

Lemma targets_appendOriginal (raw : Js.val) (p : list Column) :
  targets (appendOriginal raw p) = targets p.
Proof.
  unfold targets, appendOriginal.
  induction p as [ | c p IH]; simpl; [reflexivity | ].
  destruct (isOriginal c) eqn:E; simpl; rewrite ?E; simpl; now rewrite IH.
Qed.

Lemma appendOriginal_app (raws : list Js.val) (raw : Js.val) (p : list Column) :
  map (fun c => if isOriginal c then set_lines (lines c ++ raws) c else c)
      (appendOriginal raw p)
  = map (fun c => if isOriginal c
                  then set_lines (lines c ++ raw :: raws) c else c) p.
Proof.
  unfold appendOriginal. rewrite map_map. apply map_ext. intros c.
  destruct (isOriginal c) eqn:E; cbn [isOriginal set_lines lines];
    rewrite ?E; [ | reflexivity].
  unfold set_lines. cbn. now rewrite <- app_assoc.
Qed.

(** Messages arriving on an open socket: the original column gets the
    fragments they carry, in the order of arrival, after the lines it had,
    and no other column changes at that moment; for each fragment one
    translation call is issued per target column, fragment by fragment
    and, within a fragment, in the order of the columns. *)
Theorem fragments_in_arrival_order :
  forall (datas : list (option Js.val)) (st : State) (sid : nat) (s : Socket),
    nth_error (socks st) sid = Some s -> readyState s = OPEN ->
    let st' := run (map (SockMessage sid) datas) st in
    columns st' =
      map (fun c => if isOriginal c
                    then set_lines (lines c ++ fragments datas) c else c)
          (columns st) /\
    tasks st' =
      tasks st ++ flat_map (fan_out (srcLang s) (columns st)) (fragments datas).
Proof.
  induction datas as [ | d datas IH]; intros st sid s Hs Hopen; cbv zeta.
  - cbn [map run fold_left fragments flat_map]. split.
    + symmetry. apply map_id_on. intros c _.
      destruct (isOriginal c); [apply set_lines_same | reflexivity].
    + now rewrite app_nil_r.
  - cbn [map run fold_left step]. rewrite Hs, Hopen. cbn [Nat.eqb OPEN].
    change (fold_left (fun s0 e => step e s0) (map (SockMessage sid) datas) ?x)
      with (run (map (SockMessage sid) datas) x).
    destruct (ws_onmessage_sockets (srcLang s) d st) as [Hsocks _].
    assert (Hs' : nth_error (socks (ws_onmessage (srcLang s) d st)) sid = Some s)
      by now rewrite Hsocks.
    destruct (IH _ sid s Hs' Hopen) as [Hc Ht]. rewrite Hc, Ht.
    rewrite ws_onmessage_fragment. unfold fragments. cbn [flat_map].
    destruct (fragment d) as [raw | ].
    + cbn [columns tasks set_tasks emit set_log set_columns app flat_map].
      split.
      * apply appendOriginal_app.
      * rewrite <- app_assoc. f_equal. f_equal.
        apply flat_map_ext. intros raw'. unfold fan_out.
        now rewrite targets_appendOriginal.
    + split; reflexivity.
Qed.

Lemma fragments_in_arrival_order_witness :
  let datas := [transcript_message "hello"; None; number_message;
                transcript_message ""; transcript_message "world"] in
  nth_error (socks live_page) 0
    = Some {| srcLang := "auto"; readyState := OPEN |} /\
  fragments datas = [Js.Str "hello"; Js.Num 5; Js.Str "world"] /\
  columns (run (map (SockMessage 0) datas) live_page) =
    map (fun c => if isOriginal c
                  then set_lines (lines c ++ fragments datas) c else c)
        (columns live_page).
Proof.
  split; [reflexivity | ]. split; [reflexivity | ].
  apply (proj1 (fragments_in_arrival_order
                  [transcript_message "hello"; None; number_message;
                   transcript_message ""; transcript_message "world"]
                  live_page 0
                  (s := {| srcLang := "auto"; readyState := OPEN |})
                  eq_refl eq_refl)).
Defined.

(** ** One connection, one capture *)

(** At any time at most one socket is connecting or open, and it is the
    one [wsRef] holds: [openSocket] closes the one before. *)
Theorem at_most_one_open_socket :
  forall (evs : list Event) (sid1 sid2 : nat) (s1 s2 : Socket),
    let st := run evs initial in
    nth_error (socks st) sid1 = Some s1 -> readyState s1 < CLOSING ->
    nth_error (socks st) sid2 = Some s2 -> readyState s2 < CLOSING ->
    sid1 = sid2 /\ wsRef st = Some sid1.
Proof.
  intros evs sid1 sid2 s1 s2 st H1 L1 H2 L2.
  pose proof (run_open_is_current evs initial_open_is_current) as Hinv.
  fold st in Hinv.
  pose proof (Hinv _ _ H1 L1) as E1. pose proof (Hinv _ _ H2 L2) as E2.
  split; [congruence | exact E1].
Qed.

Lemma at_most_one_open_socket_witness :
  let st := run [StartClick; MicSettled (MicOk mic0); SockOpen 0;
                 LangSelect 0 "fr"; TimerFired; StartClick] initial in
  map readyState (socks st) = [CLOSING; CONNECTING] /\
  wsRef st = Some 1.
Proof.
  split; [reflexivity | ].
  apply (at_most_one_open_socket
           [StartClick; MicSettled (MicOk mic0); SockOpen 0;
            LangSelect 0 "fr"; TimerFired; StartClick] 1 1
           (s1 := {| srcLang := "fr"; readyState := CONNECTING |})
           (s2 := {| srcLang := "fr"; readyState := CONNECTING |}));
    try reflexivity; unfold CONNECTING, CLOSING; simpl; lia.
Defined.

Lemma capture_closeSocket (st : State) :
  isLive (closeSocket st) = isLive st /\
  streamRef (closeSocket st) = streamRef st.
Proof. unfold closeSocket. destruct (wsRef st); split; reflexivity. Qed.

Lemma capture_stopLive_with (seen : bool) (st : State) :
  has_capture st = true -> has_capture (stopLive_with seen st) = true.
Proof.
  unfold stopLive_with, has_capture. destruct seen; cbn [negb]; [ | trivial].
  intros _. destruct (capture_closeSocket (set_isLive false st)) as [E1 E2].
  cbn [isLive set_isLive] in E1.
  destruct (streamRef (closeSocket (set_isLive false st))) eqn:E.
  - cbn [isLive streamRef set_streamRef emit set_log]. now rewrite E1.
  - rewrite E1, E. reflexivity.
Qed.

Lemma capture_startLive_begin_with (b : bool) (cols : list Column) (st : State) :
  has_capture st = true -> has_capture (startLive_begin_with b cols st) = true.
Proof.
  unfold startLive_begin_with, openSocket, has_capture.
  destruct b; [trivial | ].
  destruct (capture_closeSocket (set_isProcessing true st)) as [E1 E2].
  cbn [isLive streamRef set_awaitingMic set_wsRef emit set_log set_socks].
  now rewrite E1, E2.
Qed.

Lemma capture_startLive_resume (o : MicOutcome) (st : State) :
  has_capture st = true -> has_capture (startLive_resume o st) = true.
Proof.
  unfold startLive_resume, attachMic, has_capture.
  destruct o as [c | msg]; [reflexivity | ].
  destruct (capture_closeSocket
              (emit [Alert ("Microphone error: " ++ msg)%string] st))
    as [E1 E2].
  cbn [isLive streamRef set_isProcessing]. now rewrite E1, E2.
Qed.

Lemma capture_send_slices (fs : list (list byte)) (st : State) :
  has_capture (fold_left send_slice fs st) = has_capture st.
Proof.
  revert st. induction fs as [ | f fs IH]; simpl; intros st; [reflexivity | ].
  rewrite IH. unfold send_slice. destruct (ws_ready st); reflexivity.
Qed.

Lemma step_has_capture (e : Event) (st : State) :
  has_capture st = true -> has_capture (step e st) = true.
Proof.
  intros H. destruct e; cbn [step].
  - destruct (isLive st || isProcessing st); [exact H | ].
    now apply capture_startLive_begin_with.
  - destruct (awaitingMic st); [exact H | ].
    exact (capture_startLive_resume o st H).
  - destruct (isLive st); [ | exact H].
    now apply capture_stopLive_with.
  - destruct (timers st) as [ | [b cols] rest]; [exact H | ].
    now apply capture_startLive_begin_with.
  - destruct (nth_error (socks st) sid) as [s | ]; [ | exact H].
    destruct (readyState s =? CONNECTING); exact H.
  - destruct (nth_error (socks st) sid) as [s | ]; [ | exact H].
    destruct (readyState s =? OPEN); exact H.
  - destruct (nth_error (socks st) sid) as [s | ]; [ | exact H].
    destruct (readyState s =? CLOSED); exact H.
  - destruct (nth_error (socks st) sid); exact H.
  - destruct (nth_error (socks st) sid) as [s | ]; [ | exact H].
    destruct (readyState s =? OPEN); [ | exact H].
    rewrite ws_onmessage_fragment. destruct (fragment data); exact H.
  - unfold translated. destruct (nth_error (tasks st) k); [ | exact H].
    destruct (existsb (Nat.eqb k) (settled st)); exact H.
  - unfold onaudioprocess. now rewrite capture_send_slices.
  - unfold addColumn_click.
    destruct (addColumn now (columns st)) as [p [ | ]]; exact H.
  - destruct (nth_error (columns st) i) as [col | ]; [ | exact H].
    destruct (isOriginal col); exact H.
  - destruct (nth_error (columns st) i) as [col | ]; [ | exact H].
    unfold lang_select. destruct (isOriginal col); [ | exact H].
    unfold changeSrcLang_handler.
    exact (capture_stopLive_with (isLive st) (set_columns _ st) H).
  - exact H.
  - destruct (nth_error (columns st) i) as [col | ]; exact H.
Qed.

Lemma run_has_capture (evs : list Event) :
  has_capture (run evs initial) = true.
Proof.
  unfold run. assert (H0 : has_capture initial = true) by reflexivity.
  revert H0. generalize initial as st.
  induction evs as [ | e evs IH]; cbn [fold_left]; intros st H;
    [exact H | ].
  apply IH. now apply step_has_capture.
Qed.

(** [isLive] is true exactly while [streamRef] holds a capture: the two
    are set together when [attachMic] has succeeded and cleared together
    by [stopLive], whatever else happens. *)
Theorem live_iff_capture_held :
  forall evs : list Event,
    isLive (run evs initial) =
    match streamRef (run evs initial) with
    | Some _ => true
    | None => false
    end.
Proof.
  intros evs. pose proof (run_has_capture evs) as H.
  unfold has_capture in H.
  destruct (isLive (run evs initial)), (streamRef (run evs initial));
    simpl in H; congruence.
Qed.

(** ** Nothing is sent on a closed socket *)

Unset Implicit Arguments.

Lemma quiet_effect_named (eff : Effect) : quiet_effect eff -> named_connection eff.
Proof. destruct eff; simpl; tauto. Qed.

Lemma Ordered_app_quiet (es : list Effect) :
  forall l, Ordered l -> Forall quiet_effect es -> Ordered (l ++ es).
Proof.
  induction es as [ | e es IH]; intros l Hl Hes.
  - now rewrite app_nil_r.
  - inversion Hes as [ | ? ? He Hes']; subst.
    change (e :: es) with ([e] ++ es). rewrite app_assoc.
    apply IH; [ | exact Hes'].
    apply Ordered_other; [exact Hl | ].
    intros sid f ->. exact He.
Qed.

Lemma Ordered_app_sends (sid : nat) (fs : list (list byte)) :
  forall l, Ordered l -> ~ In (WsClose sid) l ->
            Ordered (l ++ map (WsSend sid) fs).
Proof.
  induction fs as [ | f fs IH]; intros l Hl Hno; cbn [map].
  - now rewrite app_nil_r.
  - change (WsSend sid f :: map (WsSend sid) fs)
      with ([WsSend sid f] ++ map (WsSend sid) fs).
    rewrite app_assoc. apply IH.
    + now apply Ordered_send.
    + intros Hin. apply in_app_iff in Hin.
      destruct Hin as [Hin | [Hin | []]]; [now apply Hno | discriminate].
Qed.

Lemma Ordered_no_send_after_close (l : list Effect) :
  Ordered l ->
  forall l1 l2 sid f, l = l1 ++ WsSend sid f :: l2 -> ~ In (WsClose sid) l1.
Proof.
  induction 1 as [ | l sid0 f0 Hl IH Hno | l e Hl IH He];
    intros l1 l2 sid f E.
  - now destruct l1.
  - destruct (exists_last (l := WsSend sid f :: l2)) as (l2' & x & E2);
      [discriminate | ].
    rewrite E2, app_assoc in E. apply app_inj_tail in E.
    destruct E as [El Ex]. destruct l2' as [ | y l2'].
    + cbn in E2. injection E2 as E2 _. subst x. injection E2 as <- <-.
      clear IH. rewrite app_nil_r in El. congruence.
    + cbn in E2. injection E2 as <- E2.
      apply (IH l1 l2' sid f). now rewrite El.
  - destruct (exists_last (l := WsSend sid f :: l2)) as (l2' & x & E2);
      [discriminate | ].
    rewrite E2, app_assoc in E. apply app_inj_tail in E.
    destruct E as [El Ex]. destruct l2' as [ | y l2'].
    + cbn in E2. injection E2 as E2. subst. now destruct (He sid f).
    + cbn in E2. injection E2 as <- E2.
      apply (IH l1 l2' sid f). now rewrite El.
Qed.

Lemma quiet_step_refl (st : State) : quiet_step st st.
Proof.
  intros Hv. split; [exact Hv | ]. exists [].
  rewrite app_nil_r. repeat split; auto. intros sid [].
Qed.

Lemma quiet_step_trans (a b c : State) :
  quiet_step a b -> quiet_step b c -> quiet_step a c.
Proof.
  intros Hab Hbc Hv.
  destruct (Hab Hv) as (Hvb & es1 & E1 & Q1 & C1 & M1).
  destruct (Hbc Hvb) as (Hvc & es2 & E2 & Q2 & C2 & M2).
  split; [exact Hvc | ]. exists (es1 ++ es2).
  split; [now rewrite E2, E1, app_assoc | ].
  split; [now apply Forall_app | ].
  split; [ | now auto].
  intros sid Hin. apply in_app_iff in Hin. destruct Hin; auto.
Qed.

(** A change that leaves the sockets and [wsRef] alone and logs only
    effects that concern no socket. *)
Lemma quiet_step_frame (st st' : State) (es : list Effect) :
  socks st' = socks st -> wsRef st' = wsRef st -> log st' = log st ++ es ->
  Forall (fun eff => match eff with
                     | WsSend _ _ | WsNew _ _ | WsClose _ => False
                     | _ => True
                     end) es ->
  quiet_step st st'.
Proof.
  intros Hs Hw Hl Hes Hv. split.
  - intros sid. rewrite Hw, Hs. apply Hv.
  - exists es. split; [exact Hl | ]. split; [ | split].
    + eapply Forall_impl; [ | exact Hes]. intros [ ]; simpl; tauto.
    + intros sid Hin. rewrite Forall_forall in Hes. now apply Hes in Hin.
    + intros sid. unfold closed_sock. now rewrite Hs.
Qed.

Lemma quiet_step_closeSocket (st : State) : quiet_step st (closeSocket st).
Proof.
  unfold closeSocket. destruct (wsRef st) as [cur | ] eqn:Ecur.
  - intros Hv. specialize (Hv cur Ecur). split; [intros sid; discriminate | ].
    exists [WsClose cur]. split; [reflexivity | ].
    split; [repeat constructor | ].
    assert (Hcur : closed_sock
                     (set_wsConnected false
                        (set_wsRef None
                           (emit [WsClose cur]
                              (set_socks (alter_nth closing cur (socks st)) st))))
                     cur).
    { unfold closed_sock. cbn. rewrite nth_error_alter_nth, Nat.eqb_refl.
      destruct (nth_error (socks st) cur) as [s | ] eqn:Es.
      - exists (closing s). split; [reflexivity | apply closing_closed].
      - apply nth_error_None in Es. lia. }
    split.
    + intros sid [[= <-] | []]. exact Hcur.
    + intros sid (s & Hs & Hc).
      destruct (Nat.eq_dec sid cur) as [-> | Hne]; [exact Hcur | ].
      exists s. cbn. rewrite nth_error_alter_nth.
      apply Nat.eqb_neq in Hne. rewrite Hne. auto.
  - apply (quiet_step_frame _ _ []); try reflexivity.
    + now rewrite app_nil_r.
    + constructor.
Qed.

Lemma quiet_step_openSocket (sl : string) (st : State) :
  sl <> "" -> quiet_step st (openSocket sl st).
Proof.
  intros Hsl. apply (quiet_step_trans _ _ _ (quiet_step_closeSocket st)).
  unfold openSocket. generalize (closeSocket st). intros st1 Hv. split.
  - intros sid. cbn. intros [= <-]. rewrite length_app. cbn. lia.
  - exists [WsNew (List.length (socks st1)) (mapLangForServer sl)].
    split; [reflexivity | ]. split; [ | split].
    + repeat constructor. cbn. unfold mapLangForServer.
      destruct (String.prefix "zh" sl); [discriminate | exact Hsl].
    + intros sid [[=] | []].
    + intros sid (s & Hs & Hc). exists s. cbn.
      rewrite nth_error_app1; [auto | ].
      apply nth_error_Some. congruence.
Qed.

Lemma source_lang_nonempty (cols : list Column) : source_lang cols <> "".
Proof.
  unfold source_lang. destruct (find isOriginal cols) as [c | ];
    [ | discriminate].
  destruct (String.eqb_spec (lang c) ""); [discriminate | assumption].
Qed.

Lemma quiet_step_stopLive_with (seen : bool) (st : State) :
  quiet_step st (stopLive_with seen st).
Proof.
  unfold stopLive_with. destruct seen; cbn [negb]; [ | apply quiet_step_refl].
  apply (quiet_step_trans _ (set_isLive false st) _).
  { apply (quiet_step_frame _ _ []); try reflexivity;
      [now rewrite app_nil_r | constructor]. }
  apply (quiet_step_trans _ _ _ (quiet_step_closeSocket _)).
  destruct (streamRef (closeSocket (set_isLive false st))) as [c | ];
    [ | apply quiet_step_refl].
  apply (quiet_step_frame _ _ ([ProcDisconnect c; CtxClose c; TracksStop c]));
    try reflexivity.
  repeat constructor.
Qed.

Lemma quiet_step_startLive_begin_with
      (seen : bool) (cols : list Column) (st : State) :
  quiet_step st (startLive_begin_with seen cols st).
Proof.
  unfold startLive_begin_with. destruct seen; [apply quiet_step_refl | ].
  apply (quiet_step_trans _ (set_isProcessing true st) _).
  { apply (quiet_step_frame _ _ []); try reflexivity;
      [now rewrite app_nil_r | constructor]. }
  apply (quiet_step_trans _ _ _
           (quiet_step_openSocket _ (set_isProcessing true st)
                                  (source_lang_nonempty cols))).
  apply (quiet_step_frame _ _ []); try reflexivity;
    [now rewrite app_nil_r | constructor].
Qed.

Lemma quiet_step_startLive_resume (o : MicOutcome) (st : State) :
  quiet_step st (startLive_resume o st).
Proof.
  unfold startLive_resume, attachMic. destruct o as [c | msg].
  - apply (quiet_step_frame _ _ []); try reflexivity;
      [now rewrite app_nil_r | constructor].
  - apply (quiet_step_trans _
             (emit [Alert ("Microphone error: " ++ msg)%string] st) _).
    { apply (quiet_step_frame _ _ ([Alert ("Microphone error: " ++ msg)%string]));
        try reflexivity. repeat constructor. }
    apply (quiet_step_trans _ _ _ (quiet_step_closeSocket _)).
    apply (quiet_step_frame _ _ []); try reflexivity;
      [now rewrite app_nil_r | constructor].
Qed.

Lemma quiet_step_event (e : Event) (st : State) :
  match e with AudioBlock _ => True | _ => quiet_step st (step e st) end.
Proof.
  destruct e; cbn [step]; trivial.
  - destruct (isLive st || isProcessing st); [apply quiet_step_refl | ].
    apply quiet_step_startLive_begin_with.
  - destruct (awaitingMic st); [apply quiet_step_refl | ].
    apply (quiet_step_trans _ _ _ (quiet_step_startLive_resume o st)).
    apply (quiet_step_frame _ _ []); try reflexivity;
      [now rewrite app_nil_r | constructor].
  - destruct (isLive st); [ | apply quiet_step_refl].
    apply quiet_step_stopLive_with.
  - destruct (timers st) as [ | [b cols] rest]; [apply quiet_step_refl | ].
    apply (quiet_step_trans _ (set_timers rest st) _).
    + apply (quiet_step_frame _ _ []); try reflexivity;
        [now rewrite app_nil_r | constructor].
    + apply quiet_step_startLive_begin_with.
  - destruct (nth_error (socks st) sid) as [s | ] eqn:Es;
      [ | apply quiet_step_refl].
    destruct (Nat.eqb_spec (readyState s) CONNECTING) as [E0 | _];
      [ | apply quiet_step_refl].
    intros Hv. split.
    + intros sid'. cbn. rewrite length_alter_nth. apply Hv.
    + exists []. split; [cbn; now rewrite app_nil_r | ].
      split; [constructor | ]. split; [intros sid' [] | ].
      intros sid' (s' & Hs' & Hc). exists s'. cbn.
      rewrite nth_error_alter_nth.
      destruct (Nat.eqb_spec sid' sid) as [-> | _]; [ | auto].
      rewrite Es in Hs'. injection Hs' as <-.
      rewrite E0 in Hc. unfold CONNECTING, CLOSING in Hc. lia.
  - destruct (nth_error (socks st) sid) as [s | ] eqn:Es;
      [ | apply quiet_step_refl].
    destruct (readyState s =? OPEN); [ | apply quiet_step_refl].
    intros Hv. split.
    + intros sid'. cbn. rewrite length_alter_nth. apply Hv.
    + exists []. split; [cbn; now rewrite app_nil_r | ].
      split; [constructor | ]. split; [intros sid' [] | ].
      intros sid' (s' & Hs' & Hc). cbn. unfold closed_sock. cbn.
      rewrite nth_error_alter_nth.
      destruct (Nat.eqb_spec sid' sid) as [-> | _]; [ | eauto].
      rewrite Hs'. cbn. eexists. split; [reflexivity | ].
      cbn. unfold CLOSING. lia.
  - destruct (nth_error (socks st) sid) as [s | ] eqn:Es;
      [ | apply quiet_step_refl].
    destruct (readyState s =? CLOSED); [apply quiet_step_refl | ].
    intros Hv. split.
    + intros sid'. cbn. rewrite length_alter_nth. apply Hv.
    + exists []. split; [cbn; now rewrite app_nil_r | ].
      split; [constructor | ]. split; [intros sid' [] | ].
      intros sid' (s' & Hs' & Hc). cbn. unfold closed_sock. cbn.
      rewrite nth_error_alter_nth.
      destruct (Nat.eqb_spec sid' sid) as [-> | _]; [ | eauto].
      rewrite Hs'. cbn. eexists. split; [reflexivity | ].
      cbn. unfold CLOSED, CLOSING. lia.
  - destruct (nth_error (socks st) sid); [ | apply quiet_step_refl].
    unfold ws_onerror.
    apply (quiet_step_trans _ (set_wsConnected false st) _).
    + apply (quiet_step_frame _ _ []); try reflexivity;
        [now rewrite app_nil_r | constructor].
    + apply quiet_step_stopLive_with.
  - destruct (nth_error (socks st) sid) as [s | ]; [ | apply quiet_step_refl].
    destruct (readyState s =? OPEN); [ | apply quiet_step_refl].
    rewrite ws_onmessage_fragment.
    destruct (fragment data) as [raw | ]; [ | apply quiet_step_refl].
    apply (quiet_step_frame _ _
             (map fetch_of (fan_out (srcLang s) (columns st) raw)));
      try reflexivity.
    apply Forall_forall. intros eff Heff. apply in_map_iff in Heff.
    destruct Heff as (t & <- & _). exact I.
  - unfold translated. destruct (nth_error (tasks st) k);
      [ | apply quiet_step_refl].
    destruct (existsb (Nat.eqb k) (settled st)); [apply quiet_step_refl | ].
    apply (quiet_step_frame _ _ []); try reflexivity;
      [now rewrite app_nil_r | constructor].
  - unfold addColumn_click.
    destruct (addColumn now (columns st)) as [p [ | ]].
    + apply (quiet_step_frame _ _ [Alert "Max 2 targets"]); try reflexivity.
      repeat constructor.
    + apply (quiet_step_frame _ _ []); try reflexivity;
        [now rewrite app_nil_r | constructor].
  - destruct (nth_error (columns st) i) as [col | ];
      [ | apply quiet_step_refl].
    destruct (isOriginal col); [apply quiet_step_refl | ].
    apply (quiet_step_frame _ _ []); try reflexivity;
      [now rewrite app_nil_r | constructor].
  - destruct (nth_error (columns st) i) as [col | ];
      [ | apply quiet_step_refl].
    unfold lang_select. destruct (isOriginal col).
    + unfold changeSrcLang_handler.
      apply (quiet_step_trans _
               (set_columns (changeSrcLang l (columns st)) st) _).
      { apply (quiet_step_frame _ _ []); try reflexivity;
          [now rewrite app_nil_r | constructor]. }
      apply (quiet_step_trans _ _ _
               (quiet_step_stopLive_with (isLive st)
                  (set_columns (changeSrcLang l (columns st)) st))).
      apply (quiet_step_frame _ _ []); try reflexivity;
        [now rewrite app_nil_r | constructor].
    + apply (quiet_step_frame _ _ []); try reflexivity;
        [now rewrite app_nil_r | constructor].
  - apply (quiet_step_frame _ _ []); try reflexivity;
      [now rewrite app_nil_r | constructor].
  - destruct (nth_error (columns st) i) as [col | ];
      [ | apply quiet_step_refl].
    apply (quiet_step_frame _ _ []); try reflexivity;
      [now rewrite app_nil_r | constructor].
Qed.

Lemma log_ordered_quiet_step (st st' : State) :
  quiet_step st st' -> log_ordered st -> log_ordered st'.
Proof.
  intros Hq (Hv & Hc & Ho & Hn).
  destruct (Hq Hv) as (Hv' & es & El & Qes & Ces & Mes).
  split; [exact Hv' | ]. rewrite El. split; [ | split].
  - intros sid Hin. apply in_app_iff in Hin. destruct Hin; auto.
  - now apply Ordered_app_quiet.
  - apply Forall_app. split; [exact Hn | ].
    eapply Forall_impl; [ | exact Qes]. apply quiet_effect_named.
Qed.

Lemma log_ordered_audio (pcm : list byte) (st : State) :
  log_ordered st -> log_ordered (onaudioprocess pcm st).
Proof.
  intros (Hv & Hc & Ho & Hn). unfold onaudioprocess.
  destruct (send_slices_sockets (slices pcm) st) as [Es Ew].
  pose proof (send_slices_log (slices pcm) st) as El.
  unfold log_ordered, wsRef_valid, closed_sock. rewrite Es, Ew, El.
  split; [exact Hv | ].
  destruct (ws_ready st) as [sid | ] eqn:Er.
  - assert (Hno : ~ In (WsClose sid) (log st)).
    { intros Hin. apply Hc in Hin. destruct Hin as (s & Hs & Hcl).
      unfold ws_ready in Er. destruct (wsRef st) as [cur | ]; [ | discriminate].
      destruct (nth_error (socks st) cur) as [s' | ] eqn:Es';
        [ | discriminate].
      destruct (Nat.eqb_spec (readyState s') OPEN) as [Eo | _];
        [ | discriminate].
      injection Er as <-. rewrite Es' in Hs. injection Hs as <-.
      rewrite Eo in Hcl. unfold OPEN, CLOSING in Hcl. lia. }
    split; [ | split].
    + intros sid' Hin. apply in_app_iff in Hin.
      destruct Hin as [Hin | Hin]; [now apply Hc | ].
      apply in_map_iff in Hin. destruct Hin as (f & Hf & _). discriminate.
    + now apply Ordered_app_sends.
    + apply Forall_app. split; [exact Hn | ].
      apply Forall_forall. intros eff Hin. apply in_map_iff in Hin.
      destruct Hin as (f & <- & _). exact I.
  - rewrite app_nil_r. auto.
Qed.

Lemma run_log_ordered (evs : list Event) : log_ordered (run evs initial).
Proof.
  unfold run.
  assert (H0 : log_ordered initial).
  { split; [intros sid; discriminate | ].
    split; [intros sid [] | ]. split; constructor. }
  revert H0. generalize initial as st.
  induction evs as [ | e evs IH]; cbn [fold_left]; intros st H; [exact H | ].
  apply IH. pose proof (quiet_step_event e st) as Hq.
  destruct e; try (now apply (log_ordered_quiet_step st _ Hq)).
  now apply log_ordered_audio.
Qed.

(** In the effects of the page no audio frame is ever sent on a socket
    after [close()] was called on it. *)
Theorem no_send_after_close :
  forall (evs : list Event) (l1 l2 : list Effect) (sid : nat) (f : list byte),
    log (run evs initial) = l1 ++ WsSend sid f :: l2 ->
    ~ In (WsClose sid) l1.
Proof.
  intros evs l1 l2 sid f E.
  destruct (run_log_ordered evs) as (_ & _ & Ho & _).
  exact (Ordered_no_send_after_close _ Ho l1 l2 sid f E).
Qed.

(** No socket is ever opened for an empty source language: the language of
    the original column, or ["auto"] when it has none. *)
Theorem connection_language_never_empty :
  forall (evs : list Event) (sid : nat) (l : string),
    In (WsNew sid l) (log (run evs initial)) -> l <> "".
Proof.
  intros evs sid l Hin.
  destruct (run_log_ordered evs) as (_ & _ & _ & Hn).
  rewrite Forall_forall in Hn. exact (Hn _ Hin).
Qed.

Lemma no_send_after_close_witness :
  log (run [StartClick; MicSettled (MicOk mic0); SockOpen 0;
            AudioBlock [Byte.x01; Byte.x02]; StopClick] initial)
  = [WsNew 0 "auto"] ++ WsSend 0 [Byte.x01; Byte.x02]
      :: [WsClose 0; ProcDisconnect mic0; CtxClose mic0; TracksStop mic0] /\
  ~ In (WsClose 0) [WsNew 0 "auto"].
Proof.
  assert (E : log (run [StartClick; MicSettled (MicOk mic0); SockOpen 0;
                        AudioBlock [Byte.x01; Byte.x02]; StopClick] initial)
              = [WsNew 0 "auto"] ++ WsSend 0 [Byte.x01; Byte.x02]
                  :: [WsClose 0; ProcDisconnect mic0; CtxClose mic0;
                      TracksStop mic0]) by (vm_compute; reflexivity).
  split; [exact E | ].
  exact (no_send_after_close _ _ _ _ _ E).
Defined.

Lemma connection_language_never_empty_witness :
  In (WsNew 0 "auto")
     (log (run [StartClick; MicSettled (MicOk mic0); SockOpen 0] initial)) /\
  "auto" <> "".
Proof.
  assert (H : In (WsNew 0 "auto")
                 (log (run [StartClick; MicSettled (MicOk mic0); SockOpen 0]
                           initial)))
    by (vm_compute; left; reflexivity).
  split; [exact H | ].
  exact (connection_language_never_empty _ _ _ H).
Defined.

(** ** Stopping, and the restart after a change of source language *)

(** The Stop button on a live page: the socket in [wsRef] is closed
    first, then the node is disconnected, the context closed and the
    tracks stopped, in that order; afterwards nothing is live, no capture
    is held and no socket is connecting or open. *)
Theorem stop_releases_everything :
  forall evs : list Event,
    let st := run evs initial in
    isLive st = true ->
    let st' := step StopClick st in
    exists c,
      streamRef st = Some c /\
      log st' = log st
                ++ match wsRef st with Some sid => [WsClose sid] | None => [] end
                ++ [ProcDisconnect c; CtxClose c; TracksStop c] /\
      isLive st' = false /\ streamRef st' = None /\ wsRef st' = None /\
      all_closed st'.
Proof.
  intros evs st Hlive st'.
  pose proof (run_has_capture evs) as Hcap. fold st in Hcap.
  unfold has_capture in Hcap. rewrite Hlive in Hcap.
  destruct (streamRef st) as [c | ] eqn:Ec; [ | discriminate].
  exists c. split; [reflexivity | ].
  pose proof (run_open_is_current evs initial_open_is_current) as Hinv.
  fold st in Hinv.
  assert (Hinv1 : open_is_current (set_isLive false st))
    by exact (open_is_current_frame (set_isLive false st) eq_refl eq_refl Hinv).
  destruct (closeSocket_all_closed Hinv1) as [Hall Hw].
  destruct (closeSocket_keeps (set_isLive false st))
    as (Hl & Hs & _ & _ & _).
  cbn [isLive streamRef set_isLive] in Hl, Hs.
  unfold st'. cbn [step]. rewrite Hlive. unfold stopLive, stopLive_with.
  rewrite Hlive. cbn [negb]. rewrite Hs, Ec.
  cbn [log isLive streamRef wsRef set_streamRef emit set_log].
  split; [ | split; [exact Hl | split; [reflexivity | split; [exact Hw | ]]]].
  - unfold closeSocket. cbn [wsRef set_isLive].
    destruct (wsRef st); cbn; now rewrite <- ?app_assoc.
  - exact Hall.
Qed.

Lemma stop_releases_everything_witness :
  isLive (run [StartClick; MicSettled (MicOk mic0); SockOpen 0] initial)
    = true /\
  all_closed
    (step StopClick
          (run [StartClick; MicSettled (MicOk mic0); SockOpen 0] initial)).
Proof.
  assert (H : isLive (run [StartClick; MicSettled (MicOk mic0); SockOpen 0]
                          initial) = true) by (vm_compute; reflexivity).
  split; [exact H | ].
  destruct (stop_releases_everything _ H) as (c & _ & _ & _ & _ & _ & Hall).
  exact Hall.
Defined.

(** [changeSrcLang] hands [setTimeout] the [startLive] of the render in
    which the language was changed.  When the page was live the capture is
    stopped and that [startLive], which still reads [isLive] as true,
    returns at once: nothing restarts.  When the page was not live it
    starts a capture, opening the socket for the source language that the
    columns had before the change. *)
Theorem restart_after_source_language_change :
  forall (st : State) (i : nat) (col : Column) (l : string),
    nth_error (columns st) i = Some col -> isOriginal col = true ->
    timers st = [] ->
    let st1 := step (LangSelect i l) st in
    let st2 := step TimerFired st1 in
    columns st2 = changeSrcLang l (columns st) /\
    timers st2 = [] /\
    (isLive st = true ->
     isLive st2 = false /\ streamRef st2 = None /\ wsRef st2 = None /\
     socks st2 = socks st1 /\ log st2 = log st1 /\
     awaitingMic st2 = awaitingMic st) /\
    (isLive st = false ->
     wsRef st2 = Some (List.length (socks st)) /\
     awaitingMic st2 = S (awaitingMic st) /\
     log st2 =
       log st
       ++ match wsRef st with Some sid => [WsClose sid] | None => [] end
       ++ [WsNew (List.length (socks st))
                 (mapLangForServer (source_lang (columns st)))]).
Proof.
  intros st i col l Hcol Horig Htimers. cbv zeta.
  cbn [step]. rewrite Hcol. unfold lang_select. rewrite Horig.
  unfold changeSrcLang_handler, stopLive_with.
  destruct st as [live conn processing cols ws stream ss ts done waiting tm lg].
  cbn in Htimers. subst tm. cbn [isLive columns] in *.
  destruct live; cbn [negb].
  - unfold closeSocket.
    cbn [wsRef set_isLive set_columns streamRef set_wsConnected set_wsRef
         emit set_log set_socks].
    destruct ws as [cur | ], stream as [c | ]; cbn;
      unfold startLive_begin_with; cbn;
      (repeat split; try reflexivity; discriminate).
  - cbn. unfold startLive_begin_with, openSocket, closeSocket. cbn.
    destruct ws as [cur | ]; cbn; rewrite ?length_alter_nth;
      (repeat split; try reflexivity; try discriminate);
      now rewrite <- ?app_assoc.
Qed.

Lemma restart_after_source_language_change_witness :
  let st2 := step TimerFired (step (LangSelect 0 "fr") live_page) in
  isLive st2 = false /\ wsRef st2 = None /\
  let st3 := step TimerFired (step (LangSelect 0 "fr") initial) in
  log st3 = [WsNew 0 "auto"] /\ map lang (columns st3) = ["fr"].
Proof.
  assert (H1 : nth_error (columns live_page) 0
               = Some (Build_Column "original" "Original" "auto" [] true))
    by (vm_compute; reflexivity).
  assert (H2 : nth_error (columns initial) 0
               = Some (Build_Column "original" "Original" "auto" [] true))
    by reflexivity.
  destruct (restart_after_source_language_change
              live_page 0 _ "fr" H1 eq_refl eq_refl)
    as (_ & _ & Hlive & _).
  destruct (Hlive eq_refl) as (E1 & _ & E3 & _).
  destruct (restart_after_source_language_change
              initial 0 _ "fr" H2 eq_refl eq_refl)
    as (_ & _ & _ & Hidle).
  destruct (Hidle eq_refl) as (_ & _ & E4).
  split; [exact E1 | ]. split; [exact E3 | ].
  split; [exact E4 | reflexivity].
Defined.

(** ** Voices *)

Lemma voice_in_both (key : string) :
  is_some (voice_in MALE_VOICE key) = is_some (voice_in FEMALE_VOICE key) /\
  is_some (voice_in MALE_VOICE_KKR key)
    = is_some (voice_in FEMALE_VOICE_KKR key).
Proof.
  unfold voice_in, MALE_VOICE, FEMALE_VOICE, MALE_VOICE_KKR,
    FEMALE_VOICE_KKR. cbn [find fst].
  split;
    repeat match goal with
           | |- context [String.eqb ?a key] =>
               destruct (String.eqb a key); [reflexivity | ]
           end; reflexivity.
Qed.

Lemma getVoiceKey_zh (lang : string) :
  String.prefix "zh" lang = true ->
  exists rest, getVoiceKey lang = String "z" (String "h" rest).
Proof.
  intros H. unfold getVoiceKey. rewrite H.
  apply String.prefix_correct in H.
  destruct lang as [ | a [ | b rest]]; cbn in H;
    [discriminate H | injection H as _ H; discriminate H | ].
  injection H as -> -> _. cbn. eauto.
Qed.

(** For every language a male voice exists exactly when a female voice
    does, in the edge_tts maps and in the Kokoro maps alike, so the two
    play buttons of a column are enabled or disabled together; and the
    Kokoro maps have no voice for any language that starts with [zh]. *)
Theorem voices_come_in_pairs :
  forall lang : string,
    is_some (tts_voice true lang) = is_some (tts_voice false lang) /\
    is_some (tts_voice_kokoro true lang)
      = is_some (tts_voice_kokoro false lang) /\
    (String.prefix "zh" lang = true ->
     forall male, tts_voice_kokoro male lang = None).
Proof.
  intros lang. unfold tts_voice, tts_voice_kokoro.
  destruct (voice_in_both (getVoiceKey lang)) as [H1 H2].
  split; [exact H1 | split; [exact H2 | ]].
  intros Hzh male. destruct (getVoiceKey_zh lang Hzh) as [rest ->].
  destruct male; reflexivity.
Qed.

Lemma voices_come_in_pairs_witness :
  String.prefix "zh" "zh-CN" = true /\
  tts_voice_kokoro true "zh-CN" = None /\
  tts_voice true "zh-CN" = Some "zh-CN-YunjianNeural" /\
  tts_voice false "en-US" = Some "en-SG-LunaNeural".
Proof.
  split; [reflexivity | ].
  split; [ | split; reflexivity].
  apply (proj2 (proj2 (voices_come_in_pairs "zh-CN"))). reflexivity.
Defined.

(** ** The transcript summary *)

Lemma split_on_length (sep : ascii) (s : string) :
  List.length (split_on sep s) = S (count_char sep s).
Proof.
  induction s as [ | c rest IH]; cbn [split_on count_char]; [reflexivity | ].
  destruct (Ascii.eqb c sep); cbn [List.length].
  - now rewrite IH.
  - destruct (split_on sep rest) as [ | part parts];
      cbn [List.length] in *; lia.
Qed.

Lemma count_words_from (ls : list Js.val) :
  forall acc : option nat,
    fold_left (fun acc line =>
                 match acc, line_words line with
                 | Some a, Some w => Some (a + w)
                 | _, _ => None
                 end) ls acc =
    match acc with
    | Some a =>
        if forallb is_string ls
        then Some (a + List.length ls + count_spaces ls)
        else None
    | None => None
    end.
Proof.
  induction ls as [ | line ls IH]; intros acc; cbn [fold_left forallb].
  - destruct acc as [a | ]; [ | reflexivity].
    unfold count_spaces. cbn. f_equal. lia.
  - rewrite IH. destruct acc as [a | ]; [ | reflexivity].
    destruct line; cbn [line_words is_string andb]; try reflexivity.
    destruct (forallb is_string ls); [ | reflexivity].
    rewrite split_on_length. unfold count_spaces, list_sum.
    cbn [map fold_right List.length]. f_equal. lia.
Qed.

(** The summary counts, for the lines of the original column, one word
    per line plus one per space, so never fewer words than lines; with no
    original column or no line all counts are zero; the two language
    entries are never empty.  The summary is computed exactly when every
    line of the original column is a string; otherwise [split] is called
    on a value that has none and the call throws. *)
Theorem summary_counts :
  forall (cols : list Column) (live : bool),
    let ls := match find isOriginal cols with
              | Some c => lines c
              | None => []
              end in
    match getTranscriptSummary cols live with
    | Some s =>
        forallb is_string ls = true /\
        totalLines s = List.length ls /\
        totalWords s = totalLines s + count_spaces ls /\
        totalLines s <= totalWords s /\
        sourceLanguage s <> "" /\ translationLanguages s <> ""
    | None => exists v, In v ls /\ is_string v = false
    end.
Proof.
  intros cols live ls. unfold getTranscriptSummary, count_words.
  fold ls. rewrite count_words_from.
  destruct (forallb is_string ls) eqn:E.
  - cbn [totalLines totalWords sourceLanguage translationLanguages].
    repeat split; try lia.
    + destruct (find isOriginal cols) as [c | ]; [ | discriminate].
      unfold or_string. destruct (String.eqb_spec (lang c) "");
        [discriminate | assumption].
    + unfold or_string.
      destruct (String.eqb_spec
                  (String.concat ", " (map lang (targets cols))) "");
        [discriminate | assumption].
  - apply Bool.not_true_iff_false in E.
    destruct (existsb (fun v => negb (is_string v)) ls) eqn:Ex.
    + apply existsb_exists in Ex. destruct Ex as (v & Hv & Hs).
      exists v. split; [exact Hv | ]. now destruct (is_string v).
    + exfalso. apply E. apply forallb_forall. intros v Hv.
      destruct (is_string v) eqn:Es; [reflexivity | ].
      assert (Hex : existsb (fun v => negb (is_string v)) ls = true).
      { apply existsb_exists. exists v. now rewrite Es. }
      congruence.
Qed.
